(** * Practice Tracker: the audio codec, the session callbacks and the
      turn-segmented keyword counter of [src/index.tsx]

    The development follows the source file top-down: the audio helper
    functions ([encode], [createBlob], [decodeAudioData], [decode]), then the
    [App] component, whose React state and refs become one record and whose
    callbacks become state transformers. *)

From Stdlib Require Import ZArith NArith QArith Qabs Lia Lqa Bool List String Ascii.
From stdpp Require Import base list.
Import ListNotations.

Local Open Scope nat_scope.

(** ** JavaScript strings

    A JavaScript string is a sequence of UTF-16 code units; [length], [slice],
    [charCodeAt] and the regular expression engine (without the [u] flag) all
    work on code units. *)

Abbreviation char16 := N (only parsing).
Abbreviation jsstring := (list N) (only parsing).

(** String literals of the source, which are all ASCII. *)
Definition lit (s : string) : jsstring :=
  map (fun a => N_of_ascii a) (list_ascii_of_string s).

(** [s.slice(-n)]: a negative start counts from the end and is clipped at the
    beginning of the string. *)
Definition slice_last (n : nat) (s : jsstring) : jsstring :=
  skipn (length s - n) s.

(** ** The regular expression [/\bpractice\b/gi] *)

Module Regex.

(** The class [\w]: ASCII letters, digits and the underscore. *)
Definition isWordChar (c : char16) : bool :=
  ((48 <=? c) && (c <=? 57) || (65 <=? c) && (c <=? 90) ||
   (c =? 95) || (97 <=? c) && (c <=? 122))%N.

Definition isWordAt (c : option char16) : bool :=
  match c with Some c => isWordChar c | None => false end.

(** The assertion [\b] between the code unit before the current position
    and the one at it; the edges of the input count as non-word. *)
Definition wordBoundary (before at_ : option char16) : bool :=
  xorb (isWordAt before) (isWordAt at_).

(** Canonicalize of a code unit under the [i] flag without [u]: the upper
    case of an ASCII letter.  A code unit of 128 or more is never mapped to
    an ASCII one, so against the ASCII pattern it is as good as unchanged. *)
Definition canonicalize (c : char16) : char16 :=
  (if (97 <=? c) && (c <=? 122) then c - 32 else c)%N.

Definition charMatches (p c : char16) : bool :=
  (canonicalize c =? canonicalize p)%N.

(** The literal part of the pattern, matched at the head of the input; the
    result is the last code unit run over and what follows the match. *)
Fixpoint matchLiteral (pat : jsstring) (before : option char16) (s : jsstring)
    : option (option char16 * jsstring) :=
  match pat with
  | [] => Some (before, s)
  | p :: pat' =>
      match s with
      | c :: s' => if charMatches p c then matchLiteral pat' (Some c) s' else None
      | [] => None
      end
  end.

Definition keyword : jsstring := lit "practice".

(** Does [\bpractice\b] match at the current position?  [before] is the
    code unit just before it. *)
Definition matchHere (before : option char16) (s : jsstring) : bool :=
  wordBoundary before (head s) &&
  match matchLiteral keyword before s with
  | Some (final, rest) => wordBoundary final (head rest)
  | None => false
  end.

(** [text.match(re)] with the [g] flag: the matcher runs from [lastIndex = 0],
    takes the leftmost match, moves [lastIndex] to the end of that match and
    goes on until no match is left.  [skip] is the number of code units
    still to run over before [lastIndex] is reached again; the result is the
    number of matches (the [length] of the array, 0 for [null]). *)
Fixpoint matchAll (before : option char16) (skip : nat) (s : jsstring) : nat :=
  match s with
  | [] => 0
  | c :: s' =>
      match skip with
      | S k => matchAll (Some c) k s'
      | O =>
          if matchHere before s
          then S (matchAll (Some c) (length keyword - 1) s')
          else matchAll (Some c) 0 s'
      end
  end.

End Regex.

(** [countPracticeInText]: [matches ? matches.length : 0]. *)
Definition countPracticeInText (text : jsstring) : nat :=
  Regex.matchAll None 0 text.

Arguments countPracticeInText : simpl never.

(** ** Whole-word occurrences, as the glossary words them

    "An occurrence of the keyword bounded by non-word characters or string
    edges, case-insensitive": every position of the text is tested on its
    own. *)

Module WholeWord.

Definition sameLetter (p c : char16) : bool :=
  ((c =? p) || (65 <=? c) && (c <=? 90) && (c + 32 =? p))%N.

Fixpoint startsWith (kw s : jsstring) : option jsstring :=
  match kw, s with
  | [], _ => Some s
  | p :: kw', c :: s' => if sameLetter p c then startsWith kw' s' else None
  | _ :: _, [] => None
  end.

Definition nonWordOrEdge (c : option char16) : bool :=
  negb (Regex.isWordAt c).

Definition occursHere (before : option char16) (s : jsstring) : bool :=
  nonWordOrEdge before &&
  match startsWith (lit "practice") s with
  | Some rest => nonWordOrEdge (head rest)
  | None => false
  end.

Fixpoint occurrencesFrom (before : option char16) (s : jsstring) : nat :=
  match s with
  | [] => 0
  | c :: s' =>
      (if occursHere before s then 1 else 0) + occurrencesFrom (Some c) s'
  end.

Definition occurrences (s : jsstring) : nat := occurrencesFrom None s.

End WholeWord.

(** ** Exceptions and results

    A call of the source either returns or throws; inside an [async] function
    a throw rejects the returned promise. *)

Inductive exn : Set :=
| RangeError | InvalidCharacterError | NotSupportedError | InvalidStateError.

Inductive result (A : Type) : Type :=
| Ok (a : A)
| Throw (e : exn).
Arguments Ok {A} a.
Arguments Throw {A} e.

Definition rbind {A B} (r : result A) (k : A -> result B) : result B :=
  match r with Ok a => k a | Throw e => Throw e end.

Definition isThrow {A} (r : result A) : bool :=
  match r with Ok _ => false | Throw _ => true end.

(** ** Numbers of the audio path

    A sample is a float32.  Every operation of the source on samples is exact
    in double precision (a product with or a quotient by 2^15, of a float32 or
    of a 16-bit integer), so a finite sample is modelled by the rational it
    denotes. *)

Inductive float : Type :=
| Num (q : Q)
| NaN
| Inf (negative : bool).

Definition fmul (x : float) (k : Q) : float :=
  match x with Num q => Num (q * k) | NaN => NaN | Inf b => Inf b end.

(** Truncation toward zero. *)
Definition truncate (q : Q) : Z := Z.quot (Qnum q) (Zpos (Qden q)).

(** ToInt16, the conversion of a store into an [Int16Array]: NaN and the
    infinities give 0, a finite number is truncated and reduced modulo 2^16
    into the signed range. *)
Definition wrap16 (z : Z) : Z :=
  let u := (z mod 65536)%Z in
  if (u <? 32768)%Z then u else (u - 65536)%Z.

Definition toInt16 (x : float) : Z :=
  match x with
  | Num q => wrap16 (truncate q)
  | NaN | Inf _ => 0%Z
  end.

(** ** Typed array views *)

Abbreviation byte := N (only parsing).

(** [new Uint8Array(int16.buffer)]: the two bytes of each element, low byte
    first (typed arrays have the byte order of the platform, little-endian
    wherever the application runs). *)
Definition int16Bytes (z : Z) : list byte :=
  let u := Z.to_N (z mod 65536)%Z in [(u mod 256)%N; (u / 256)%N].

Definition Uint8Array_of_Int16Array (a : list Z) : list byte :=
  concat (map int16Bytes a).

Definition int16OfBytes (lo hi : byte) : Z :=
  let u := Z.of_N (lo + 256 * hi)%N in
  if (u <? 32768)%Z then u else (u - 65536)%Z.

Fixpoint int16Pairs (data : list byte) : list Z :=
  match data with
  | lo :: hi :: rest => int16OfBytes lo hi :: int16Pairs rest
  | _ => []
  end.

(** [new Int16Array(data.buffer)]: a buffer whose byte length is not a
    multiple of 2 is refused with a RangeError. *)
Definition Int16Array_of_buffer (data : list byte) : result (list Z) :=
  if Nat.even (length data) then Ok (int16Pairs data) else Throw RangeError.

(** ** [btoa] and [atob] *)

Module Base64.

Definition pad : char16 := 61%N.

Definition encChar (n : N) : char16 :=
  (if n <? 26 then 65 + n
   else if n <? 52 then 97 + (n - 26)
   else if n <? 62 then 48 + (n - 52)
   else if n =? 62 then 43 else 47)%N.

Definition decChar (c : char16) : option N :=
  (if (65 <=? c) && (c <=? 90) then Some (c - 65)
   else if (97 <=? c) && (c <=? 122) then Some (c - 97 + 26)
   else if (48 <=? c) && (c <=? 57) then Some (c - 48 + 52)
   else if c =? 43 then Some 62
   else if c =? 47 then Some 63
   else None)%N.

Fixpoint encodeBytes (bs : list byte) : jsstring :=
  match bs with
  | [] => []
  | [a] => [encChar (a / 4); encChar (a mod 4 * 16); pad; pad]%N
  | [a; b] =>
      [encChar (a / 4); encChar (a mod 4 * 16 + b / 16);
       encChar (b mod 16 * 4); pad]%N
  | a :: b :: c :: rest =>
      [encChar (a / 4); encChar (a mod 4 * 16 + b / 16);
       encChar (b mod 16 * 4 + c / 64); encChar (c mod 64)]%N
      ++ encodeBytes rest
  end.

(** The groups of six bits that [encodeBytes] writes, without the padding. *)
Fixpoint sextets (bs : list byte) : list N :=
  match bs with
  | [] => []
  | [a] => [a / 4; a mod 4 * 16]%N
  | [a; b] => [a / 4; a mod 4 * 16 + b / 16; b mod 16 * 4]%N
  | a :: b :: c :: rest =>
      [a / 4; a mod 4 * 16 + b / 16; b mod 16 * 4 + c / 64; c mod 64]%N
      ++ sextets rest
  end.

(** [btoa(binary)]: a code unit above 0xFF is an InvalidCharacterError. *)
Definition btoa (binary : jsstring) : result jsstring :=
  if forallb (fun c => c <? 256)%N binary
  then Ok (encodeBytes binary)
  else Throw InvalidCharacterError.

Definition isAsciiWhitespace (c : char16) : bool :=
  ((c =? 9) || (c =? 10) || (c =? 12) || (c =? 13) || (c =? 32))%N.

(** One or two [=] at the end are removed when the length is a multiple
    of 4. *)
Definition stripPadding (s : jsstring) : jsstring :=
  if length s mod 4 =? 0 then
    match rev s with
    | c1 :: c2 :: r =>
        if (c1 =? pad)%N then
          if (c2 =? pad)%N then rev r else rev (c2 :: r)
        else s
    | _ => s
    end
  else s.

Fixpoint decodeChars (s : jsstring) : option (list N) :=
  match s with
  | [] => Some []
  | c :: s' =>
      match decChar c, decodeChars s' with
      | Some n, Some ns => Some (n :: ns)
      | _, _ => None
      end
  end.

(** Four sextets make three bytes; of a rest of two sextets the last four
    bits are dropped, of a rest of three the last two. *)
Fixpoint sextetsToBytes (sx : list N) : list byte :=
  match sx with
  | a :: b :: c :: d :: rest =>
      [a * 4 + b / 16; b mod 16 * 16 + c / 4; c mod 4 * 64 + d]%N
      ++ sextetsToBytes rest
  | [a; b; c] => [a * 4 + b / 16; b mod 16 * 16 + c / 4]%N
  | [a; b] => [a * 4 + b / 16]%N
  | _ => []
  end.

(** [atob(data)], the forgiving base64 decoding of the HTML standard. *)
Definition atob (data : jsstring) : result jsstring :=
  let d := stripPadding (List.filter (fun c => negb (isAsciiWhitespace c)) data) in
  if length d mod 4 =? 1 then Throw InvalidCharacterError
  else match decodeChars d with
       | Some sx => Ok (sextetsToBytes sx)
       | None => Throw InvalidCharacterError
       end.

End Base64.

(** ** The audio helper functions of the source *)

(** [String.fromCharCode(n)] for one argument: the code unit [n mod 2^16]. *)
Definition fromCharCode (n : N) : char16 := (n mod 65536)%N.

(** [encode(bytes)]: the loop builds the binary string one code unit per
    byte, [btoa] turns it into base64. *)
Definition encode (bytes : list byte) : result jsstring :=
  Base64.btoa (map fromCharCode bytes).

Record Blob : Type := mkBlob { data : jsstring; mimeType : jsstring }.

(** The loop of [createBlob]: [int16[i] = data[i] * 32768]. *)
Definition createBlob_int16 (data : list float) : list Z :=
  map (fun x => toInt16 (fmul x 32768)) data.

Definition createBlob (data : list float) : result Blob :=
  rbind (encode (Uint8Array_of_Int16Array (createBlob_int16 data)))
        (fun d => Ok {| data := d; mimeType := lit "audio/pcm;rate=16000" |}).

(** [decode(base64)]: [bytes[i] = binaryString.charCodeAt(i)], stored into a
    [Uint8Array]. *)
Definition decode (base64 : jsstring) : result (list byte) :=
  rbind (Base64.atob base64)
        (fun binaryString => Ok (map (fun c => c mod 256)%N binaryString)).

Record AudioBuffer : Type := mkAudioBuffer {
  sampleRate : N;
  channels : list (list float)
}.

(** What an implementation of the Web Audio API accepts in [createBuffer].
    The API leaves the limits to the implementation, within bounds: at least
    32 channels and at least the sample rates from 8000 to 96000 must be
    supported. *)
Record AudioSupport : Type := mkAudioSupport {
  maxChannels : nat;
  minSampleRate : N;
  maxSampleRate : N
}.

Definition conforming (ctx : AudioSupport) : Prop :=
  32 <= maxChannels ctx /\ (minSampleRate ctx <= 8000)%N /\ (96000 <= maxSampleRate ctx)%N.

(** The implementation that supports what the API requires, and no more. *)
Definition requiredSupport : AudioSupport :=
  {| maxChannels := 32; minSampleRate := 8000; maxSampleRate := 96000 |}.

Definition supports (ctx : AudioSupport) (numberOfChannels : nat) (rate : N) : bool :=
  (numberOfChannels <=? maxChannels ctx)
  && (minSampleRate ctx <=? rate)%N && (rate <=? maxSampleRate ctx)%N.

(** [ctx.createBuffer(numberOfChannels, length, sampleRate)] of the Web Audio
    API: an argument that is zero, a channel count or a sample rate that the
    implementation does not support is a NotSupportedError; the channels
    start as silence.  The length has arrived through the conversion to an
    unsigned long, which drops the fraction of [frameCount]. *)
Definition createBuffer (ctx : AudioSupport) (numberOfChannels len : nat) (rate : N)
    : result AudioBuffer :=
  if (numberOfChannels =? 0) || (len =? 0) || (rate =? 0)%N
     || negb (supports ctx numberOfChannels rate)
  then Throw NotSupportedError
  else Ok {| sampleRate := rate;
             channels := replicate numberOfChannels (replicate len (Num 0)) |}.

(** [dataInt16[k] / 32768.0]; a read past the end is [undefined], and
    [undefined / 32768.0] is NaN. *)
Definition sampleOfInt16 (v : option Z) : float :=
  match v with
  | Some z => Num (inject_Z z / 32768)
  | None => NaN
  end.

(** The inner loop of [decodeAudioData] for one channel.  [iterations] is the
    number of [i] with [i < frameCount]; a store past the end of
    [channelData] is ignored, as [<[i:=v]>] does. *)
Definition fillChannel (dataInt16 : list Z) (numChannels channel iterations : nat)
    (channelData : list float) : list float :=
  foldl (fun cd i => <[i := sampleOfInt16 (dataInt16 !! (i * numChannels + channel))]> cd)
        channelData (seq 0 iterations).

(** [decodeAudioData(data, ctx, sampleRate, numChannels)].  [frameCount] is
    the quotient [dataInt16.length / numChannels] of two numbers, not of two
    integers: the buffer gets its integer part, the loop runs over every
    [i] below it, that is over [ceil frameCount] indices. *)
Definition decodeAudioData (data : list byte) (ctx : AudioSupport) (rate : N)
    (numChannels : nat) : result AudioBuffer :=
  rbind (Int16Array_of_buffer data) (fun dataInt16 =>
  let n := length dataInt16 in
  rbind (createBuffer ctx numChannels (n / numChannels) rate) (fun buffer =>
  let iterations := (n + numChannels - 1) / numChannels in
  Ok {| sampleRate := sampleRate buffer;
        channels := imap (fun channel channelData =>
                            fillChannel dataInt16 numChannels channel iterations channelData)
                         (channels buffer) |})).

(** ** The [App] component

    The four [useState] cells, the eight [useRef] cells, and the part of the
    browser and of the Live API client that the callbacks act on. *)

Record ReactState : Type := mkReactState {
  isRecording : bool;
  practiceCount : nat;
  transcript : jsstring;
  error : option jsstring
}.

(** A ref to an object holds the identity of the object, or [null]. *)
Record Refs : Type := mkRefs {
  sessionRef : option nat;
  audioContextRef : option nat;
  inputAudioContextRef : option nat;
  mediaStreamRef : option nat;
  processorRef : option nat;
  sourceRef : option nat;
  committedCountRef : nat;
  currentTurnTextRef : jsstring
}.

Inductive SessionCall : Type :=
| SendRealtimeInput (media : Blob)
| CloseSession.

(** One call of [ai.live.connect]: the objects its callbacks have closed over
    ([inputCtx], [outputCtx], [stream]), whether [sessionPromise] is
    fulfilled, the blobs whose [then] reaction waits for that, and the calls
    made on the session object. *)
Record Session : Type := mkSession {
  s_inputCtx : nat;
  s_outputCtx : nat;
  s_stream : nat;
  s_resolved : bool;
  s_pending : list Blob;
  s_calls : list SessionCall
}.

(** A script processor node: the session whose promise its [onaudioprocess]
    has closed over, its audio context, and whether it is still connected. *)
Record Processor : Type := mkProcessor {
  p_session : nat;
  p_ctx : nat;
  p_connected : bool
}.

(** Objects are identified by their index in the list of their kind. *)
Record Platform : Type := mkPlatform {
  contexts : list bool;            (* audio contexts: [true] while not closed *)
  streams : list bool;             (* media streams: [true] while the tracks are live *)
  sources : list bool;             (* media stream source nodes: [true] while connected *)
  processors : list Processor;
  sessions : list Session;
  played : list (nat * AudioBuffer) (* [source.start()] calls: output context, buffer *)
}.

Record App : Type := mkApp {
  ui : ReactState;
  refs : Refs;
  env : Platform
}.

Definition initial : App :=
  {| ui := {| isRecording := false; practiceCount := 0; transcript := []; error := None |};
     refs := {| sessionRef := None; audioContextRef := None;
                inputAudioContextRef := None; mediaStreamRef := None;
                processorRef := None; sourceRef := None;
                committedCountRef := 0; currentTurnTextRef := [] |};
     env := {| contexts := []; streams := []; sources := []; processors := [];
               sessions := []; played := [] |} |}.

(** *** Assignments *)

Definition with_ui (f : ReactState -> ReactState) (a : App) : App :=
  {| ui := f (ui a); refs := refs a; env := env a |}.
Definition with_refs (f : Refs -> Refs) (a : App) : App :=
  {| ui := ui a; refs := f (refs a); env := env a |}.
Definition with_env (f : Platform -> Platform) (a : App) : App :=
  {| ui := ui a; refs := refs a; env := f (env a) |}.

Definition setIsRecording (b : bool) : App -> App :=
  with_ui (fun u => mkReactState b (practiceCount u) (transcript u) (error u)).
Definition setPracticeCount (n : nat) : App -> App :=
  with_ui (fun u => mkReactState (isRecording u) n (transcript u) (error u)).
Definition setTranscript (f : jsstring -> jsstring) : App -> App :=
  with_ui (fun u => mkReactState (isRecording u) (practiceCount u) (f (transcript u)) (error u)).
Definition setError (e : option jsstring) : App -> App :=
  with_ui (fun u => mkReactState (isRecording u) (practiceCount u) (transcript u) e).

Definition set_sessionRef (v : option nat) : App -> App :=
  with_refs (fun r => mkRefs v (audioContextRef r) (inputAudioContextRef r)
    (mediaStreamRef r) (processorRef r) (sourceRef r) (committedCountRef r) (currentTurnTextRef r)).
Definition set_audioContextRef (v : option nat) : App -> App :=
  with_refs (fun r => mkRefs (sessionRef r) v (inputAudioContextRef r)
    (mediaStreamRef r) (processorRef r) (sourceRef r) (committedCountRef r) (currentTurnTextRef r)).
Definition set_inputAudioContextRef (v : option nat) : App -> App :=
  with_refs (fun r => mkRefs (sessionRef r) (audioContextRef r) v
    (mediaStreamRef r) (processorRef r) (sourceRef r) (committedCountRef r) (currentTurnTextRef r)).
Definition set_mediaStreamRef (v : option nat) : App -> App :=
  with_refs (fun r => mkRefs (sessionRef r) (audioContextRef r) (inputAudioContextRef r)
    v (processorRef r) (sourceRef r) (committedCountRef r) (currentTurnTextRef r)).
Definition set_processorRef (v : option nat) : App -> App :=
  with_refs (fun r => mkRefs (sessionRef r) (audioContextRef r) (inputAudioContextRef r)
    (mediaStreamRef r) v (sourceRef r) (committedCountRef r) (currentTurnTextRef r)).
Definition set_sourceRef (v : option nat) : App -> App :=
  with_refs (fun r => mkRefs (sessionRef r) (audioContextRef r) (inputAudioContextRef r)
    (mediaStreamRef r) (processorRef r) v (committedCountRef r) (currentTurnTextRef r)).
Definition set_committedCountRef (v : nat) : App -> App :=
  with_refs (fun r => mkRefs (sessionRef r) (audioContextRef r) (inputAudioContextRef r)
    (mediaStreamRef r) (processorRef r) (sourceRef r) v (currentTurnTextRef r)).
Definition set_currentTurnTextRef (v : jsstring) : App -> App :=
  with_refs (fun r => mkRefs (sessionRef r) (audioContextRef r) (inputAudioContextRef r)
    (mediaStreamRef r) (processorRef r) (sourceRef r) (committedCountRef r) v).

Definition set_contexts (v : list bool) : App -> App :=
  with_env (fun p => mkPlatform v (streams p) (sources p) (processors p) (sessions p) (played p)).
Definition set_streams (v : list bool) : App -> App :=
  with_env (fun p => mkPlatform (contexts p) v (sources p) (processors p) (sessions p) (played p)).
Definition set_sources (v : list bool) : App -> App :=
  with_env (fun p => mkPlatform (contexts p) (streams p) v (processors p) (sessions p) (played p)).
Definition set_processors (v : list Processor) : App -> App :=
  with_env (fun p => mkPlatform (contexts p) (streams p) (sources p) v (sessions p) (played p)).
Definition set_sessions (v : list Session) : App -> App :=
  with_env (fun p => mkPlatform (contexts p) (streams p) (sources p) (processors p) v (played p)).
Definition set_played (v : list (nat * AudioBuffer)) : App -> App :=
  with_env (fun p => mkPlatform (contexts p) (streams p) (sources p) (processors p) (sessions p) v).

(** *** A callback: the state it leaves and the exception it ended with, if
    any.  The state reached at a throw is kept: the assignments made before it
    are not undone. *)

Definition Run : Type := App * option exn.

Definition finished (a : App) : Run := (a, None).
Definition thrown (e : exn) (a : App) : Run := (a, Some e).

Definition andThen (r : Run) (k : App -> Run) : Run :=
  match r with
  | (a, None) => k a
  | (a, Some e) => (a, Some e)
  end.

Notation "r >>> k" := (andThen r k) (at level 50, left associativity).

(** [if (ref.current) ...] *)
Definition whenSome {A} (o : option A) (k : A -> App -> Run) (a : App) : Run :=
  match o with Some x => k x a | None => finished a end.

(** *** Platform calls *)

(** [stream.getTracks().forEach(track => track.stop())] *)
Definition stopTracks (m : nat) (a : App) : App :=
  set_streams (<[m := false]> (streams (env a))) a.

(** [node.disconnect()] *)
Definition disconnectSource (n : nat) (a : App) : App :=
  set_sources (<[n := false]> (sources (env a))) a.
Definition disconnectProcessor (n : nat) (a : App) : App :=
  set_processors
    (alter (fun p => mkProcessor (p_session p) (p_ctx p) false) n (processors (env a))) a.

(** [await ctx.close()]: closing a context that is closed already rejects
    with an InvalidStateError. *)
Definition closeContext (c : nat) (a : App) : Run :=
  match contexts (env a) !! c with
  | Some true => finished (set_contexts (<[c := false]> (contexts (env a))) a)
  | _ => thrown InvalidStateError a
  end.

(** *** [startSession]

    [gum] is the outcome of [getUserMedia]: [None] when the stream is
    granted, [Some msg] when the call rejects with an error of message
    [msg]. *)
Definition startSession (gum : option jsstring) (a : App) : App :=
  let a := setError None a in
  let inputCtx := length (contexts (env a)) in
  let outputCtx := S inputCtx in
  let a := set_contexts (contexts (env a) ++ [true; true]) a in
  let a := set_inputAudioContextRef (Some inputCtx) a in
  let a := set_audioContextRef (Some outputCtx) a in
  match gum with
  | None =>
      let stream := length (streams (env a)) in
      let a := set_streams (streams (env a) ++ [true]) a in
      let a := set_mediaStreamRef (Some stream) a in
      let sessionPromise := length (sessions (env a)) in
      let a := set_sessions
                 (sessions (env a) ++ [mkSession inputCtx outputCtx stream false [] []]) a in
      set_sessionRef (Some sessionPromise) a
  | Some msg =>
      let a := setError (Some (match msg with
                               | [] => lit "Failed to start session"
                               | _ => msg
                               end)) a in
      setIsRecording false a
  end.

(** *** The callbacks given to [connect], for the session [sid] *)

Definition onopen (sid : nat) (a : App) : App :=
  match sessions (env a) !! sid with
  | None => a
  | Some ses =>
      let a := setIsRecording true a in
      let source := length (sources (env a)) in
      let a := set_sources (sources (env a) ++ [false]) a in
      let a := set_sourceRef (Some source) a in
      let processor := length (processors (env a)) in
      let a := set_processors
                 (processors (env a) ++ [mkProcessor sid (s_inputCtx ses) false]) a in
      let a := set_processorRef (Some processor) a in
      let a := set_sources (<[source := true]> (sources (env a))) a in
      set_processors
        (alter (fun p => mkProcessor (p_session p) (p_ctx p) true) processor
               (processors (env a))) a
  end.

Record LiveServerMessage : Type := mkMessage {
  inputTranscription : option jsstring;  (* [serverContent.inputTranscription.text] *)
  turnComplete : bool;                   (* [serverContent.turnComplete] *)
  audioData : option jsstring            (* [serverContent.modelTurn.parts[0].inlineData.data] *)
}.

(** The first [if] of [onmessage]. *)
Definition handleTranscription (text : jsstring) (a : App) : App :=
  let a := set_currentTurnTextRef (currentTurnTextRef (refs a) ++ text) a in
  let turnCount := countPracticeInText (currentTurnTextRef (refs a)) in
  let a := setPracticeCount (committedCountRef (refs a) + turnCount) a in
  setTranscript (fun prev => let full := prev ++ text in slice_last 300 full) a.

(** The second [if] of [onmessage]. *)
Definition handleTurnComplete (a : App) : App :=
  let turnCount := countPracticeInText (currentTurnTextRef (refs a)) in
  let a := set_committedCountRef (committedCountRef (refs a) + turnCount) a in
  set_currentTurnTextRef [] a.

(** The audio output part of [onmessage]; an empty string is falsy.  The
    buffer is made by the output context, at 24000 Hz and one channel, which
    every implementation supports: the result is the same for each of them
    (lemma [decodeAudioData_conforming]), and the one with the required
    support stands for all. *)
Definition handleAudio (outputCtx : nat) (audioData : option jsstring) (a : App) : Run :=
  match audioData with
  | None | Some [] => finished a
  | Some d =>
      match rbind (decode d)
                  (fun bytes => decodeAudioData bytes requiredSupport 24000 1) with
      | Ok audioBuffer =>
          finished (set_played (played (env a) ++ [(outputCtx, audioBuffer)]) a)
      | Throw e => thrown e a
      end
  end.

Definition onmessage (sid : nat) (message : LiveServerMessage) (a : App) : Run :=
  match sessions (env a) !! sid with
  | None => finished a
  | Some ses =>
      let a := match inputTranscription message with
               | Some text => handleTranscription text a
               | None => a
               end in
      let a := if turnComplete message then handleTurnComplete a else a in
      handleAudio (s_outputCtx ses) (audioData message) a
  end.

Definition onclose (sid : nat) (a : App) : App :=
  match sessions (env a) !! sid with
  | None => a
  | Some _ => setIsRecording false a
  end.

Definition onerror (sid : nat) (a : App) : App :=
  match sessions (env a) !! sid with
  | None => a
  | Some _ =>
      let a := setError (Some (lit "Connection error detected.")) a in
      setIsRecording false a
  end.

(** *** The promise of the session *)

(** [sessionPromise.then(session => session.sendRealtimeInput({media: blob}))]:
    the reaction runs when the promise is fulfilled, and waits until then. *)
Definition sendOrWait (blob : Blob) (ses : Session) : Session :=
  if s_resolved ses
  then mkSession (s_inputCtx ses) (s_outputCtx ses) (s_stream ses) true
         (s_pending ses) (s_calls ses ++ [SendRealtimeInput blob])
  else mkSession (s_inputCtx ses) (s_outputCtx ses) (s_stream ses) false
         (s_pending ses ++ [blob]) (s_calls ses).

Definition thenSend (sid : nat) (blob : Blob) (a : App) : App :=
  set_sessions (alter (sendOrWait blob) sid (sessions (env a))) a.

(** The promise is fulfilled: the waiting reactions run in the order of their
    registration. *)
Definition fulfilled (ses : Session) : Session :=
  if s_resolved ses then ses
  else mkSession (s_inputCtx ses) (s_outputCtx ses) (s_stream ses) true
         [] (s_calls ses ++ map SendRealtimeInput (s_pending ses)).

Definition fulfil (sid : nat) (a : App) : App :=
  set_sessions (alter fulfilled sid (sessions (env a))) a.

(** A processor delivers audio while it is connected and its context is not
    closed. *)
Definition delivers (pid : nat) (a : App) : option Processor :=
  match processors (env a) !! pid with
  | Some p =>
      if p_connected p && bool_decide (contexts (env a) !! p_ctx p = Some true)
      then Some p else None
  | None => None
  end.

(** [processor.onaudioprocess], with [inputData] the channel 0 of the input
    buffer. *)
Definition onaudioprocess (pid : nat) (inputData : list float) (a : App) : Run :=
  match delivers pid a with
  | None => finished a
  | Some p =>
      match createBlob inputData with
      | Ok blob => finished (thenSend (p_session p) blob a)
      | Throw e => thrown e a
      end
  end.

(** *** [stopSession]

    The two awaited [close()] calls are taken in one step with the rest of the
    body. *)
Definition stopSession (a : App) : Run :=
  finished a
  >>> whenSome (mediaStreamRef (refs a)) (fun m a =>
        finished (set_mediaStreamRef None (stopTracks m a)))
  >>> (fun a =>
        match sourceRef (refs a), processorRef (refs a) with
        | Some src, Some proc => finished (disconnectProcessor proc (disconnectSource src a))
        | _, _ => finished a
        end)
  >>> (fun a => whenSome (inputAudioContextRef (refs a)) closeContext a)
  >>> (fun a => whenSome (audioContextRef (refs a)) closeContext a)
  >>> (fun a =>
        let a := set_inputAudioContextRef None a in
        let a := set_audioContextRef None a in
        let a := set_sourceRef None a in
        let a := set_processorRef None a in
        let a := set_committedCountRef
                   (committedCountRef (refs a)
                    + countPracticeInText (currentTurnTextRef (refs a))) a in
        let a := set_currentTurnTextRef [] a in
        finished (setIsRecording false a)).

(** ** Events *)

Inductive Event : Type :=
| EStart (gum : option jsstring)          (* [startSession] is called *)
| EStop                                   (* [stopSession] is called: the button, or the unmount *)
| EOpen (sid : nat)
| EMessage (sid : nat) (message : LiveServerMessage)
| EClose (sid : nat)
| EError (sid : nat)
| EFulfil (sid : nat)                     (* the promise returned by [connect] is fulfilled *)
| EAudio (pid : nat) (inputData : list float).

Definition react (e : Event) (a : App) : Run :=
  match e with
  | EStart gum => finished (startSession gum a)
  | EStop => stopSession a
  | EOpen sid => finished (onopen sid a)
  | EMessage sid m => onmessage sid m a
  | EClose sid => finished (onclose sid a)
  | EError sid => finished (onerror sid a)
  | EFulfil sid => finished (fulfil sid a)
  | EAudio pid inputData => onaudioprocess pid inputData a
  end.

(** An exception ends the callback it is thrown in, not the application. *)
Definition step (a : App) (e : Event) : App := fst (react e a).

Definition run (a : App) (evs : list Event) : App := foldl step a evs.

(** The count on the screen. *)
Definition reportedCount (a : App) : nat := practiceCount (ui a).

(** ** What the counter is fed by an event

    The transcript text an event appends to the turn buffer, and whether the
    event commits the buffer. *)

Definition deltaOf (a : App) (e : Event) : jsstring :=
  match e with
  | EMessage sid m =>
      match sessions (env a) !! sid, inputTranscription m with
      | Some _, Some text => text
      | _, _ => []
      end
  | _ => []
  end.

Definition hasDelta (a : App) (e : Event) : bool :=
  match e with
  | EMessage sid m =>
      bool_decide (is_Some (sessions (env a) !! sid))
      && bool_decide (is_Some (inputTranscription m))
  | _ => false
  end.

Definition commits (a : App) (e : Event) : bool :=
  match e with
  | EMessage sid m => bool_decide (is_Some (sessions (env a) !! sid)) && turnComplete m
  | EStop => bool_decide (snd (stopSession a) = None)
  | _ => false
  end.

(** All the transcript text received along a trace. *)
Fixpoint received (a : App) (evs : list Event) : jsstring :=
  match evs with
  | [] => []
  | e :: evs' => deltaOf a e ++ received (step a e) evs'
  end.

(** The texts of the turns closed along a trace, oldest first. *)
Fixpoint closedTurns (a : App) (evs : list Event) : list jsstring :=
  match evs with
  | [] => []
  | e :: evs' =>
      (if commits a e then [currentTurnTextRef (refs a) ++ deltaOf a e] else [])
      ++ closedTurns (step a e) evs'
  end.

(** The transcript texts of a list of messages. *)
Definition deltasOf (ms : list LiveServerMessage) : list jsstring :=
  omap inputTranscription ms.

Definition sumCounts (turns : list jsstring) : nat :=
  foldr (fun t n => countPracticeInText t + n) 0 turns.

(** ** The encoding as the specification words it

    "Scales each sample into a 16-bit signed integer", out-of-range samples
    "clamped": the product with the scale, truncated, and held at the ends of
    the 16-bit range. *)

Definition clamp16 (z : Z) : Z := Z.max (-32768) (Z.min 32767 z).

Definition scaleAndClamp (scale : Q) (x : float) : Z :=
  match x with
  | Num q => clamp16 (truncate (q * scale))
  | NaN => 0%Z
  | Inf negative => if negative then (-32768)%Z else 32767%Z
  end.

(** The samples the data model admits, with and without the upper end. *)
Definition inUnitRange (x : float) : bool :=
  match x with
  | Num q => Qle_bool (-1) q && Qle_bool q 1
  | _ => false
  end.

Definition belowFullScale (x : float) : bool :=
  match x with
  | Num q => Qle_bool (-1) q && negb (Qle_bool 1 q)
  | _ => false
  end.

(** [encode] after [createBlob], then [decode] and [decodeAudioData] at one
    channel. *)
Definition roundTrip (ctx : AudioSupport) (frame : list float) (rate : N)
    : result AudioBuffer :=
  rbind (createBlob frame) (fun blob =>
  rbind (decode (data blob)) (fun bytes =>
  decodeAudioData bytes ctx rate 1)).

(** ** What a session is handed

    The blobs given to [sendRealtimeInput] so far, followed by those whose
    reaction still waits for the promise. *)

Definition mediaOf (c : SessionCall) : list Blob :=
  match c with SendRealtimeInput b => [b] | CloseSession => [] end.

Definition handed (ses : Session) : list Blob :=
  concat (map mediaOf (s_calls ses)) ++ s_pending ses.

Definition isSend (c : SessionCall) : bool :=
  match c with SendRealtimeInput _ => true | CloseSession => false end.

(** No session has been closed by a call of the application. *)
Definition neverClosed (a : App) : bool :=
  forallb (fun ses => forallb isSend (s_calls ses)) (sessions (env a)).

(** Has the open callback of the session been run in the trace? *)
Definition opened (sid : nat) (evs : list Event) : bool :=
  existsb (fun e => match e with EOpen s => s =? sid | _ => false end) evs.

(** The blob an event makes the processor of a session capture. *)
Definition captured (a : App) (sid : nat) (e : Event) : list Blob :=
  match e with
  | EAudio pid inputData =>
      match delivers pid a with
      | Some p =>
          if p_session p =? sid
          then match createBlob inputData with Ok blob => [blob] | Throw _ => [] end
          else []
      | None => []
      end
  | _ => []
  end.

Fixpoint capturedAlong (a : App) (sid : nat) (evs : list Event) : list Blob :=
  match evs with
  | [] => []
  | e :: evs' => captured a sid e ++ capturedAlong (step a e) sid evs'
  end.

(** A fulfilled promise has no reaction waiting; an unfulfilled one has run
    none. *)
Definition settled (ses : Session) : Prop :=
  if s_resolved ses then s_pending ses = [] else s_calls ses = [].

(** What holds of the sessions and processors after the trace [evs]. *)
Definition traceInvariant (evs : list Event) (a : App) : Prop :=
  (forall sid ses, sessions (env a) !! sid = Some ses ->
     handed ses = capturedAlong initial sid evs /\ settled ses)
  /\ (forall pid prc, processors (env a) !! pid = Some prc ->
        p_session prc < length (sessions (env a))
        /\ opened (p_session prc) evs = true)
  /\ (forall sid, length (sessions (env a)) <= sid ->
        capturedAlong initial sid evs = [])
  /\ (forall sid, opened sid evs = false -> capturedAlong initial sid evs = []).

(** ** The refs and the objects they name

    A context ref names a context that is not closed, the two context refs
    name different contexts, and the other refs name objects that exist. *)
Definition refsValid (a : App) : Prop :=
  match inputAudioContextRef (refs a) with
  | Some c => contexts (env a) !! c = Some true
  | None => True
  end
  /\ match audioContextRef (refs a) with
     | Some c => contexts (env a) !! c = Some true
                 /\ inputAudioContextRef (refs a) <> Some c
     | None => True
     end
  /\ match mediaStreamRef (refs a) with
     | Some m => m < length (streams (env a))
     | None => True
     end
  /\ match sourceRef (refs a) with
     | Some n => n < length (sources (env a))
     | None => True
     end
  /\ match processorRef (refs a) with
     | Some n => n < length (processors (env a))
     | None => True
     end.

(** What [stopSession] has to release: the tracks of the stream, the two
    nodes when both are held, the two contexts. *)
Definition released (before after : App) : Prop :=
  match mediaStreamRef (refs before) with
  | Some m => streams (env after) !! m = Some false
  | None => True
  end
  /\ match sourceRef (refs before), processorRef (refs before) with
     | Some src, Some proc =>
         sources (env after) !! src = Some false
         /\ p_connected <$> processors (env after) !! proc = Some false
     | _, _ => True
     end
  /\ match inputAudioContextRef (refs before) with
     | Some c => contexts (env after) !! c = Some false
     | None => True
     end
  /\ match audioContextRef (refs before) with
     | Some c => contexts (env after) !! c = Some false
     | None => True
     end.

(** The refs to local resources are all [null]. *)
Definition localRefsNull (a : App) : Prop :=
  mediaStreamRef (refs a) = None /\ sourceRef (refs a) = None
  /\ processorRef (refs a) = None /\ inputAudioContextRef (refs a) = None
  /\ audioContextRef (refs a) = None.

(** A message without its audio part. *)
Definition withoutAudio (m : LiveServerMessage) : LiveServerMessage :=
  mkMessage (inputTranscription m) (turnComplete m) None.

(** Two samples less than one quantization step apart. *)
Definition closeTo (x y : float) : Prop :=
  match x, y with
  | Num q, Num r => (Qabs (q - r) < 1 # 32768)%Q
  | _, _ => False
  end.

(** The ranges of the elements of a [Uint8Array] and of an [Int16Array]. *)
Definition isByte (b : byte) : Prop := (b < 256)%N.
Definition isInt16 (z : Z) : Prop := (-32768 <= z <= 32767)%Z.

(** A finite sample of at least -1 and below 1. *)
Definition unitSample (x : float) : Prop :=
  match x with
  | Num q => (-1 <= q /\ q < 1)%Q
  | _ => False
  end.

(** What one sample becomes on the way through [createBlob] and back. *)
Definition requantize (x : float) : float :=
  sampleOfInt16 (Some (toInt16 (fmul x 32768))).

(** A buffer as [onmessage] starts it: 24 kHz, one channel with at least one
    sample, all samples finite, of at least -1 and below 1. *)
Definition playable (b : AudioBuffer) : Prop :=
  sampleRate b = 24000%N
  /\ exists ch, channels b = [ch] /\ ch <> [] /\ Forall unitSample ch.

(** The two node refs are set together and cleared together. *)
Definition refsPaired (a : App) : Prop :=
  match sourceRef (refs a), processorRef (refs a) with
  | Some _, Some _ | None, None => True
  | _, _ => False
  end.

(** The [onClick] of the button: [isRecording ? stopSession : startSession]. *)
Definition clickButton (gum : option jsstring) (a : App) : Run :=
  if isRecording (ui a) then stopSession a else finished (startSession gum a).

(** Messages with a transcript delta only, and with the turn completion
    only. *)
Definition deltaMessage (text : jsstring) : LiveServerMessage :=
  mkMessage (Some text) false None.
Definition turnCompleteMessage : LiveServerMessage := mkMessage None true None.

Definition isMessage (e : Event) : bool :=
  match e with EMessage _ _ => true | _ => false end.

(** The letters of the pattern are lower case ones. *)
Definition isLower (c : char16) : bool := ((97 <=? c) && (c <=? 122))%N.

(** * Properties *)

(** ** The regular expression counts whole words *)

Section RegexFacts.

Import Regex WholeWord.

Ltac nbool :=
  repeat match goal with
    | H : _ && _ = true |- _ => apply andb_true_iff in H; destruct H
    | H : _ || _ = true |- _ => apply orb_true_iff in H; destruct H
    | H : _ && _ = false |- _ => apply andb_false_iff in H; destruct H
    | H : _ || _ = false |- _ => apply orb_false_iff in H; destruct H
    | H : (_ <=? _)%N = true |- _ => apply N.leb_le in H
    | H : (_ <=? _)%N = false |- _ => apply N.leb_gt in H
    | H : (_ =? _)%N = true |- _ => apply N.eqb_eq in H
    | H : (_ =? _)%N = false |- _ => apply N.eqb_neq in H
    end.

Lemma charMatches_sameLetter p c :
  isLower p = true -> charMatches p c = sameLetter p c.
Proof.
  unfold isLower, charMatches, sameLetter, canonicalize. intros Hp.
  rewrite Hp. nbool.
  destruct ((97 <=? c)%N && (c <=? 122)%N) eqn:Hc;
    destruct ((c =? p)%N || (65 <=? c)%N && (c <=? 90)%N && (c + 32 =? p)%N) eqn:Hs;
    nbool; first [ apply N.eqb_eq | apply N.eqb_neq ]; lia.
Qed.

Lemma sameLetter_word p c :
  isLower p = true -> sameLetter p c = true -> isWordChar c = true.
Proof.
  unfold isLower, sameLetter, isWordChar. intros Hp Hs. nbool.
  - subst c. replace (97 <=? p)%N with true by (symmetry; apply N.leb_le; lia).
    replace (p <=? 122)%N with true by (symmetry; apply N.leb_le; lia).
    simpl. apply orb_true_r.
  - replace (65 <=? c)%N with true by (symmetry; apply N.leb_le; lia).
    replace (c <=? 90)%N with true by (symmetry; apply N.leb_le; lia).
    simpl. rewrite orb_true_r. reflexivity.
Qed.

Lemma matchLiteral_startsWith pat : forall before s,
  forallb isLower pat = true ->
  matchLiteral pat before s
  = match startsWith pat s with
    | Some rest => Some (match pat with
                         | [] => before
                         | _ => last (take (length pat) s)
                         end, rest)
    | None => None
    end.
Proof.
  induction pat as [|p pat IH]; intros before s Hp; cbn [matchLiteral startsWith].
  - destruct s; reflexivity.
  - cbn in Hp. apply andb_true_iff in Hp as [Hp1 Hp2].
    destruct s as [|c s]; [reflexivity|].
    rewrite (charMatches_sameLetter _ _ Hp1).
    destruct (sameLetter p c); [|reflexivity].
    rewrite (IH (Some c) s Hp2).
    destruct (startsWith pat s) as [rest|] eqn:Hs; [|reflexivity].
    destruct pat as [|p' pat]; [reflexivity|].
    destruct s as [|c' s]; [discriminate|]. reflexivity.
Qed.

(** A match of the literal consumes as many code units as the pattern has,
    all of them letters. *)
Lemma startsWith_split pat s rest :
  forallb isLower pat = true -> startsWith pat s = Some rest ->
  exists pre, s = pre ++ rest /\ length pre = length pat
              /\ forallb isWordChar pre = true.
Proof.
  revert s. induction pat as [|p pat IH]; intros s Hp Hs.
  - exists []. destruct s; simpl in Hs; inversion Hs; auto.
  - simpl in Hp. apply andb_true_iff in Hp as [Hp1 Hp2].
    destruct s as [|c s]; simpl in Hs; [discriminate|].
    destruct (sameLetter p c) eqn:Hc; [|discriminate].
    destruct (IH s Hp2 Hs) as (pre & -> & Hlen & Hw).
    exists (c :: pre). simpl. rewrite Hlen, Hw, (sameLetter_word p c Hp1 Hc). auto.
Qed.

Lemma keyword_lower : forallb isLower keyword = true.
Proof. reflexivity. Qed.

Lemma matchHere_occursHere before s : matchHere before s = occursHere before s.
Proof.
  unfold matchHere, occursHere, wordBoundary, nonWordOrEdge.
  rewrite (matchLiteral_startsWith keyword before s keyword_lower).
  change (lit "practice") with keyword.
  destruct (startsWith keyword s) as [rest|] eqn:Hs.
  - destruct (startsWith_split _ _ _ keyword_lower Hs) as (pre & -> & Hlen & Hw).
    rewrite <- Hlen, take_app_length.
    destruct pre as [|c pre]; [discriminate|].
    assert (Hlast : isWordAt (last (c :: pre)) = true).
    { destruct (last (c :: pre)) as [x|] eqn:Hl; [|apply last_None in Hl; discriminate].
      rewrite forallb_forall in Hw. apply Hw.
      apply list_elem_of_In, last_Some_elem_of, Hl. }
    cbn in Hw. apply andb_true_iff in Hw as [Hc _].
    change (match keyword with [] => before | _ :: _ => last (c :: pre) end)
      with (last (c :: pre)).
    rewrite Hlast.
    change (isWordAt (head ((c :: pre) ++ rest))) with (isWordChar c). rewrite Hc.
    destruct (isWordAt before), (isWordAt (head rest)); reflexivity.
  - rewrite !andb_false_r. reflexivity.
Qed.

Lemma matchAll_occurrencesFrom s : forall before skip,
  (skip = 0 \/ isWordAt before = true) ->
  forallb isWordChar (take skip s) = true ->
  matchAll before skip s = occurrencesFrom before s.
Proof.
  induction s as [|c s IH]; intros before skip Hb Hw; [reflexivity|].
  destruct skip as [|k].
  - cbn [matchAll occurrencesFrom].
    rewrite <- matchHere_occursHere.
    destruct (matchHere before (c :: s)) eqn:Hm.
    + rewrite matchHere_occursHere in Hm. unfold occursHere in Hm.
      apply andb_true_iff in Hm as [_ Hm].
      change (lit "practice") with keyword in Hm.
      destruct (startsWith keyword (c :: s)) as [rest|] eqn:Hs; [|discriminate].
      destruct (startsWith_split _ _ _ keyword_lower Hs) as (pre & Heq & Hlen & Hpre).
      destruct pre as [|c' pre]; [discriminate|].
      simpl in Heq. injection Heq as <- ->.
      simpl in Hpre. apply andb_true_iff in Hpre as [Hc Hpre].
      simpl in Hlen. injection Hlen as Hlen.
      rewrite IH; [reflexivity | right; exact Hc |].
      change (length keyword - 1) with 7. rewrite <- Hlen.
      rewrite take_app_length. exact Hpre.
    + rewrite IH; [reflexivity | left; reflexivity | reflexivity].
  - destruct Hb as [Hb|Hb]; [discriminate|].
    simpl in Hw. apply andb_true_iff in Hw as [Hc Hw].
    cbn [matchAll occurrencesFrom].
    unfold occursHere, nonWordOrEdge. rewrite Hb. simpl.
    apply IH; [right; exact Hc | exact Hw].
Qed.

(** The count of the source is the number of whole-word, case-insensitive
    occurrences of the keyword. *)
Lemma countPracticeInText_occurrences text :
  countPracticeInText text = occurrences text.
Proof.
  unfold countPracticeInText, occurrences.
  apply matchAll_occurrencesFrom; [left; reflexivity | reflexivity].
Qed.

End RegexFacts.

(** ** Valid refs: [stopSession] always completes *)

Section ValidRefs.

Ltac open_state a :=
  destruct a as [u r p]; destruct r as [sr ar ir mr pr sor cc tt];
  destruct p as [ctxs strs srcs procs sess pl].

Lemma refsValid_initial : refsValid initial.
Proof. repeat split. Qed.

(** With valid refs [stopSession] runs to its end and leaves no local ref. *)
Lemma stopSession_completes a :
  refsValid a ->
  snd (stopSession a) = None /\ localRefsNull (fst (stopSession a)).
Proof.
  unfold refsValid, localRefsNull.
  open_state a. cbn [refs env inputAudioContextRef audioContextRef mediaStreamRef
                     sourceRef processorRef contexts streams sources processors].
  intros (Hi & Ho & _).
  unfold stopSession, andThen, whenSome, finished, thrown, closeContext; cbn.
  destruct mr as [m|], sor as [so|], pr as [pp|]; cbn;
    (destruct ir as [i|]; cbn; [rewrite Hi; cbn|]);
    (destruct ar as [o|]; cbn;
     [destruct Ho as [Ho Hne];
      try (rewrite list_lookup_insert_ne by congruence); rewrite Ho; cbn|]);
    repeat split.
Qed.

Lemma refsValid_step a e : refsValid a -> refsValid (step a e).
Proof.
  intros Hv.
  destruct e as [gum| |sid|sid m|sid|sid|sid|pid inp]; unfold step; cbn [react fst].
  - unfold refsValid in *. open_state a. unfold startSession. cbn in Hv.
    destruct Hv as (_ & _ & Hm & Hs & Hp).
    destruct gum; cbn.
    + repeat split; auto.
      * rewrite lookup_app_r, Nat.sub_diag by lia. reflexivity.
      * rewrite lookup_app_r by lia.
        replace (S (length ctxs) - length ctxs) with 1 by lia. reflexivity.
      * intros [= H]. lia.
    + repeat split; auto.
      * rewrite lookup_app_r, Nat.sub_diag by lia. reflexivity.
      * rewrite lookup_app_r by lia.
        replace (S (length ctxs) - length ctxs) with 1 by lia. reflexivity.
      * intros [= H]. lia.
      * rewrite length_app. cbn. lia.
  - destruct (stopSession_completes a Hv) as [_ (H1 & H2 & H3 & H4 & H5)].
    unfold refsValid. rewrite H1, H2, H3, H4, H5. repeat split.
  - unfold refsValid in *. open_state a. unfold onopen. cbn in *.
    destruct (sess !! sid); [|exact Hv]. cbn.
    destruct Hv as (Hi & Ho & Hm & Hs & Hp).
    repeat split; auto.
    + rewrite length_insert, length_app. cbn. lia.
    + rewrite length_alter, length_app. cbn. lia.
  - unfold refsValid in *. open_state a. unfold onmessage, handleAudio. cbn in *.
    destruct (sess !! sid); [|exact Hv].
    destruct (inputTranscription m), (turnComplete m), (audioData m) as [[|c d]|];
      cbn; try exact Hv;
      match goal with |- context [rbind ?x ?k] => destruct (rbind x k) end;
      cbn; exact Hv.
  - unfold refsValid in *. open_state a. unfold onclose. cbn in *.
    destruct (sess !! sid); exact Hv.
  - unfold refsValid in *. open_state a. unfold onerror. cbn in *.
    destruct (sess !! sid); exact Hv.
  - unfold refsValid in *. open_state a. cbn in *. exact Hv.
  - unfold refsValid in *. unfold onaudioprocess.
    destruct (delivers pid a) as [prc|]; [|exact Hv].
    destruct (createBlob inp); [|exact Hv].
    open_state a. cbn in *. exact Hv.
Qed.

Lemma refsValid_run evs : forall a, refsValid a -> refsValid (run a evs).
Proof.
  induction evs as [|e evs IH]; intros a Ha; [exact Ha|].
  apply IH, refsValid_step, Ha.
Qed.

End ValidRefs.

(** ** The counter along a trace *)

Section Counter.

Abbreviation committed a := (committedCountRef (refs a)).
Abbreviation turnBuffer a := (currentTurnTextRef (refs a)).

(** Unfolds [stopSession] down to the tests it makes. *)
Ltac stop_cases a :=
  destruct a as [u r p]; destruct r as [sr ar ir mr pr sor cc tt];
  unfold stopSession, andThen, whenSome, finished, thrown, closeContext; cbn;
  destruct mr as [m|]; cbn;
  destruct sor as [so|]; cbn; try (destruct pr as [pp|]; cbn);
  try (destruct ir as [i|]; cbn;
       [match goal with |- context [?l !! i] => destruct (l !! i) as [[|]|] eqn:? end; cbn|]);
  try (destruct ar as [o|]; cbn;
       [match goal with |- context [?l !! o] => destruct (l !! o) as [[|]|] eqn:? end; cbn|]).

Lemma stopSession_counters a :
  match snd (stopSession a) with
  | None =>
      committed (fst (stopSession a)) = committed a + countPracticeInText (turnBuffer a)
      /\ turnBuffer (fst (stopSession a)) = []
  | Some _ =>
      committed (fst (stopSession a)) = committed a
      /\ turnBuffer (fst (stopSession a)) = turnBuffer a
  end
  /\ reportedCount (fst (stopSession a)) = reportedCount a.
Proof. stop_cases a; auto. Qed.

Lemma step_turnBuffer a e :
  turnBuffer (step a e) =
  if commits a e then [] else turnBuffer a ++ deltaOf a e.
Proof.
  destruct e as [gum| |sid|sid m|sid|sid|sid|pid inp]; unfold step; cbn [react commits deltaOf].
  - unfold startSession. destruct gum; cbn; rewrite app_nil_r; reflexivity.
  - pose proof (stopSession_counters a) as [H _].
    case_bool_decide as Hs.
    + rewrite Hs in H. apply H.
    + destruct (snd (stopSession a)); [|congruence].
      rewrite app_nil_r. apply H.
  - unfold onopen. destruct (sessions (env a) !! sid); cbn; rewrite app_nil_r; reflexivity.
  - unfold onmessage. destruct (sessions (env a) !! sid) as [ses|] eqn:Hs; cbn.
    2:{ rewrite app_nil_r. reflexivity. }
    unfold handleAudio.
    destruct (inputTranscription m) as [text|], (turnComplete m), (audioData m) as [[|c d]|];
      cbn; rewrite ?app_nil_r; try reflexivity;
      match goal with |- context [rbind ?x ?k] => destruct (rbind x k) end;
      cbn; rewrite ?app_nil_r; reflexivity.
  - unfold onclose. destruct (sessions (env a) !! sid); cbn; rewrite app_nil_r; reflexivity.
  - unfold onerror. destruct (sessions (env a) !! sid); cbn; rewrite app_nil_r; reflexivity.
  - cbn. rewrite app_nil_r; reflexivity.
  - unfold onaudioprocess. destruct (delivers pid a); cbn; [|rewrite app_nil_r; reflexivity].
    destruct (createBlob inp); cbn; rewrite app_nil_r; reflexivity.
Qed.

Lemma step_committed a e :
  committed (step a e) =
  committed a
  + (if commits a e then countPracticeInText (turnBuffer a ++ deltaOf a e) else 0).
Proof.
  destruct e as [gum| |sid|sid m|sid|sid|sid|pid inp]; unfold step; cbn [react commits deltaOf].
  - unfold startSession. destruct gum; cbn; lia.
  - pose proof (stopSession_counters a) as [H _].
    case_bool_decide as Hs.
    + rewrite Hs in H. rewrite app_nil_r. apply H.
    + destruct (snd (stopSession a)); [|congruence].
      destruct H as [-> _]. lia.
  - unfold onopen. destruct (sessions (env a) !! sid); cbn; lia.
  - unfold onmessage. destruct (sessions (env a) !! sid) as [ses|] eqn:Hs; cbn.
    2:{ lia. }
    unfold handleAudio.
    destruct (inputTranscription m) as [text|], (turnComplete m), (audioData m) as [[|c d]|];
      cbn; rewrite ?app_nil_r; try lia;
      match goal with |- context [rbind ?x ?k] => destruct (rbind x k) end;
      cbn; rewrite ?app_nil_r; lia.
  - unfold onclose. destruct (sessions (env a) !! sid); cbn; lia.
  - unfold onerror. destruct (sessions (env a) !! sid); cbn; lia.
  - cbn. lia.
  - unfold onaudioprocess. destruct (delivers pid a); cbn; [|lia].
    destruct (createBlob inp); cbn; lia.
Qed.

Lemma hasDelta_false a e : hasDelta a e = false -> deltaOf a e = [].
Proof.
  destruct e as [gum| |sid|sid m|sid|sid|sid|pid inp]; cbn; try reflexivity.
  destruct (sessions (env a) !! sid), (inputTranscription m); cbn; congruence.
Qed.

(** The count on the screen changes only where a delta arrives, to the
    committed count plus the count of the grown buffer. *)
Lemma step_reported a e :
  reportedCount (step a e) =
  if hasDelta a e
  then committed a + countPracticeInText (turnBuffer a ++ deltaOf a e)
  else reportedCount a.
Proof.
  destruct e as [gum| |sid|sid m|sid|sid|sid|pid inp]; unfold step;
    cbn [react deltaOf hasDelta].
  - unfold startSession. destruct gum; reflexivity.
  - apply stopSession_counters.
  - unfold onopen. destruct (sessions (env a) !! sid); reflexivity.
  - unfold onmessage. destruct (sessions (env a) !! sid) as [ses|] eqn:Hs; cbn; [|auto].
    unfold handleAudio.
    destruct (inputTranscription m) as [text|];
      destruct (turnComplete m), (audioData m) as [[|c d]|]; cbn; try reflexivity;
      match goal with |- context [rbind ?x ?k] => destruct (rbind x k) end;
      reflexivity.
  - unfold onclose. destruct (sessions (env a) !! sid); reflexivity.
  - unfold onerror. destruct (sessions (env a) !! sid); reflexivity.
  - reflexivity.
  - unfold onaudioprocess. destruct (delivers pid a); cbn; [|reflexivity].
    destruct (createBlob inp); reflexivity.
Qed.

Lemma count_nil : countPracticeInText [] = 0.
Proof. reflexivity. Qed.

Definition countInvariant (a : App) : Prop :=
  reportedCount a = committed a + countPracticeInText (turnBuffer a).

Lemma countInvariant_step a e : countInvariant a -> countInvariant (step a e).
Proof.
  unfold countInvariant. intros Hinv.
  rewrite step_committed, step_turnBuffer, step_reported.
  destruct (hasDelta a e) eqn:Hd.
  - destruct (commits a e); rewrite ?count_nil; lia.
  - rewrite (hasDelta_false _ _ Hd), app_nil_r.
    destruct (commits a e); rewrite ?count_nil; lia.
Qed.

Lemma run_snoc a evs e : run a (evs ++ [e]) = step (run a evs) e.
Proof. unfold run. rewrite foldl_snoc. reflexivity. Qed.

Lemma countInvariant_run a evs : countInvariant a -> countInvariant (run a evs).
Proof.
  revert a. induction evs as [|e evs IH]; intros a Ha; [exact Ha|].
  apply IH, countInvariant_step, Ha.
Qed.

Lemma countInvariant_initial : countInvariant initial.
Proof. reflexivity. Qed.

(** Every received code unit is in exactly one closed turn or in the open
    buffer, and the committed count is the sum over the closed turns. *)
Lemma run_turns a evs :
  committed (run a evs) = committed a + sumCounts (closedTurns a evs)
  /\ concat (closedTurns a evs) ++ turnBuffer (run a evs)
     = turnBuffer a ++ received a evs.
Proof.
  revert a. induction evs as [|e evs IH]; intros a; cbn [run foldl closedTurns received].
  - cbn. rewrite app_nil_r. split; [lia | reflexivity].
  - destruct (IH (step a e)) as [IHc IHt]. fold (run (step a e) evs).
    rewrite IHc, step_committed.
    rewrite concat_app, <- app_assoc, IHt, step_turnBuffer.
    destruct (commits a e); cbn.
    + rewrite !app_nil_r, app_assoc. unfold sumCounts. split; [lia | reflexivity].
    + rewrite app_assoc. unfold sumCounts. split; [lia | reflexivity].
Qed.

Lemma sumCounts_occurrences turns :
  sumCounts turns = foldr (fun t n => WholeWord.occurrences t + n) 0 turns.
Proof.
  induction turns as [|t turns IH]; [reflexivity|].
  cbn [sumCounts foldr]. fold (sumCounts turns).
  rewrite IH, countPracticeInText_occurrences. reflexivity.
Qed.

(** C1. The count on the screen is the committed count plus the count of
    the turn buffer in every state a session can reach.  A step never lowers
    the committed count; it raises it only where the turn is completed or
    the session is stopped (a stop always commits, a message of an existing
    session does when it completes the turn), by exactly the count of the
    turn buffer (with the delta of the same message), and the buffer is empty
    afterwards; at every other step the committed count stays and the buffer
    only grows by the delta.  So the committed count is the sum of the counts of the closed
    turns, and the closed turns with the open buffer are exactly the text
    received: no piece of text is counted twice.  The count of a text is the
    number of its whole-word, case-insensitive occurrences of the keyword:
    the count on the screen is the number of those occurrences in the closed
    turns and in the open buffer. *)
Theorem count_state_invariant (evs : list Event) :
  let a := run initial evs in
  reportedCount a = committed a + countPracticeInText (turnBuffer a)
  /\ (forall e,
        committed a <= committed (step a e)
        /\ (if commits a e
            then committed (step a e)
                 = committed a + countPracticeInText (turnBuffer a ++ deltaOf a e)
                 /\ turnBuffer (step a e) = []
            else committed (step a e) = committed a
                 /\ turnBuffer (step a e) = turnBuffer a ++ deltaOf a e))
  /\ commits a EStop = true
  /\ (forall sid m,
        commits a (EMessage sid m)
        = bool_decide (is_Some (sessions (env a) !! sid)) && turnComplete m)
  /\ committed a = sumCounts (closedTurns initial evs)
  /\ concat (closedTurns initial evs) ++ turnBuffer a = received initial evs
  /\ (forall text, countPracticeInText text = WholeWord.occurrences text)
  /\ reportedCount a
     = foldr (fun turn n => WholeWord.occurrences turn + n) 0 (closedTurns initial evs)
       + WholeWord.occurrences (turnBuffer a).
Proof.
  intros a. split; [|split; [|split; [|split; [|split; [|split; [|split]]]]]].
  - apply (countInvariant_run initial evs), countInvariant_initial.
  - intros e. rewrite step_committed, step_turnBuffer.
    destruct (commits a e) eqn:Hc; rewrite ?Hc; split; auto; lia.
  - cbn. apply bool_decide_eq_true_2.
    apply stopSession_completes, (refsValid_run evs initial refsValid_initial).
  - reflexivity.
  - apply (run_turns initial evs).
  - apply (run_turns initial evs).
  - apply countPracticeInText_occurrences.
  - rewrite <- sumCounts_occurrences, <- countPracticeInText_occurrences.
    assert (Hc : committed a = sumCounts (closedTurns initial evs))
      by apply (run_turns initial evs).
    rewrite <- Hc.
    apply (countInvariant_run initial evs), countInvariant_initial.
Qed.

(** The abrupt stop of the specification, by the invariant: after the delta
    "practice practice" the screen shows 2 with nothing committed; the stop
    commits the 2 and empties the buffer, and the screen still shows 2. *)
Lemma count_state_invariant_witness :
  let evs := [EStart None; EOpen 0;
              EMessage 0 (mkMessage (Some (lit "practice practice")) false None)] in
  let a := run initial evs in
  WholeWord.occurrences (lit "practice practice") = 2
  /\ (reportedCount a, committed a) = (2, 0)
  /\ (reportedCount (step a EStop), committed (step a EStop), turnBuffer (step a EStop))
     = (2, 2, []).
Proof.
  intros evs a.
  destruct (count_state_invariant evs) as (Hinv & Hstep & Hstop & _ & Hsum & Hrecv & Hocc & _).
  fold a in Hinv, Hstep, Hstop, Hsum, Hrecv.
  destruct (count_state_invariant (evs ++ [EStop])) as (Hinv' & _).
  rewrite run_snoc in Hinv'. fold a in Hinv'.
  destruct (Hstep EStop) as [_ Hcommit]. rewrite Hstop in Hcommit.
  destruct Hcommit as [Hc Hb].
  assert (Hbuf : turnBuffer a = lit "practice practice").
  { change (closedTurns initial evs) with (@nil jsstring) in Hrecv. exact Hrecv. }
  assert (H0 : committed a = 0) by exact Hsum.
  split; [reflexivity|].
  rewrite Hinv', Hb, Hc, Hinv, H0, Hbuf.
  change (deltaOf a EStop) with (@nil char16). rewrite app_nil_r.
  rewrite !Hocc. split; vm_compute; reflexivity.
Defined.

(** The turn boundary of the specification: three deltas, a turn
    completion, one more delta, a turn completion. *)
Example turn_boundary :
  let delta (t : string) := EMessage 0 (mkMessage (Some (lit t)) false None) in
  let done := EMessage 0 (mkMessage None true None) in
  map (fun evs => reportedCount (run initial ([EStart None; EOpen 0] ++ evs)))
      [[delta "I like to prac"];
       [delta "I like to prac"; delta "tice daily. "];
       [delta "I like to prac"; delta "tice daily. "; delta "Practice makes perfect."];
       [delta "I like to prac"; delta "tice daily. "; delta "Practice makes perfect."; done];
       [delta "I like to prac"; delta "tice daily. "; delta "Practice makes perfect."; done;
        delta "practice"; done]]%string
  = [0; 1; 2; 2; 3].
Proof. vm_compute. reflexivity. Qed.

(** The abrupt stop of the specification: one delta, no turn completion,
    then [stop]. *)
Example abrupt_stop :
  let a := run initial [EStart None; EOpen 0;
                        EMessage 0 (mkMessage (Some (lit "practice practice")) false None);
                        EStop] in
  (reportedCount a, committed a, turnBuffer a) = (2, 2, []).
Proof. vm_compute. reflexivity. Qed.

Lemma onmessage_sessions a sid m :
  sessions (env (step a (EMessage sid m))) = sessions (env a).
Proof.
  unfold step; cbn [react]. unfold onmessage.
  destruct (sessions (env a) !! sid) as [ses|]; [|reflexivity].
  unfold handleAudio.
  destruct (inputTranscription m), (turnComplete m), (audioData m) as [[|c d]|];
    cbn; try reflexivity;
    match goal with |- context [rbind ?x ?k] => destruct (rbind x k) end; reflexivity.
Qed.

Lemma run_messages_same_turn sid ms : forall a,
  is_Some (sessions (env a) !! sid) ->
  Forall (fun m => turnComplete m = false) ms ->
  committed (run a (map (EMessage sid) ms)) = committed a
  /\ turnBuffer (run a (map (EMessage sid) ms)) = turnBuffer a ++ concat (deltasOf ms).
Proof.
  induction ms as [|m ms IH]; intros a Hs Hm.
  - cbn. rewrite app_nil_r. auto.
  - inversion Hm as [|? ? Hm1 Hm2]; subst.
    cbn [map run foldl]. fold (run (step a (EMessage sid m)) (map (EMessage sid) ms)).
    destruct (IH (step a (EMessage sid m))) as [IHc IHt]; [|assumption|].
    { rewrite onmessage_sessions. assumption. }
    rewrite IHc, IHt, step_committed, step_turnBuffer.
    assert (Hc : commits a (EMessage sid m) = false).
    { cbn. rewrite Hm1. apply andb_false_r. }
    rewrite Hc. split; [lia|].
    destruct Hs as [ses Hs]. unfold deltasOf. cbn. rewrite Hs.
    destruct (inputTranscription m); cbn; rewrite <- ?app_assoc; reflexivity.
Qed.

(** C2. Within one turn, that is from a reachable state whose turn buffer is
    empty and through messages none of which completes the turn, the count
    on the screen after the messages (so after each delta: every prefix of
    the turn is such a list) is the committed count of the start of the turn
    plus the count of the keyword in the concatenation of the deltas
    received so far.  That count is taken over the whole concatenation, and
    it is the number of whole-word, case-insensitive occurrences. *)
Theorem reported_count_within_turn
    (evs0 : list Event) (sid : nat) (ms : list LiveServerMessage) :
  let a := run initial evs0 in
  let a' := run a (map (EMessage sid) ms) in
  let text := concat (deltasOf ms) in
  is_Some (sessions (env a) !! sid) ->
  turnBuffer a = [] ->
  Forall (fun m => turnComplete m = false) ms ->
  reportedCount a' = committed a + countPracticeInText text
  /\ countPracticeInText text = WholeWord.occurrences text
  /\ committed a' = committed a
  /\ turnBuffer a' = text.
Proof.
  intros a a' text Hs Hb Hm.
  destruct (run_messages_same_turn sid ms a Hs Hm) as [Hc Ht].
  rewrite Hb in Ht. cbn [app] in Ht.
  assert (Hinv : countInvariant a').
  { apply countInvariant_run, (countInvariant_run initial evs0), countInvariant_initial. }
  unfold countInvariant in Hinv. fold a' in Hc, Ht.
  rewrite Hinv, Hc, Ht.
  repeat split. apply countPracticeInText_occurrences.
Qed.

(** A keyword cut in two by the boundary of two deltas is counted. *)
Lemma reported_count_within_turn_witness :
  let a := run initial [EStart None; EOpen 0] in
  let ms := [mkMessage (Some (lit "I like to prac")) false None;
             mkMessage (Some (lit "tice daily. ")) false None] in
  reportedCount (run a (map (EMessage 0) ms)) = 1.
Proof.
  intros a ms.
  destruct (reported_count_within_turn [EStart None; EOpen 0] 0 ms) as [H _].
  - vm_compute. eauto.
  - reflexivity.
  - repeat constructor.
  - exact H.
Defined.

End Counter.

(** ** The transcript on the screen *)

Section Transcript.

Lemma slice_last_length n s : length (slice_last n s) <= n.
Proof. unfold slice_last. rewrite length_drop. lia. Qed.

Lemma slice_last_short n s : length s <= n -> slice_last n s = s.
Proof.
  intros H. unfold slice_last. replace (length s - n) with 0 by lia. reflexivity.
Qed.

Lemma slice_last_app n p t :
  slice_last n (slice_last n p ++ t) = slice_last n (p ++ t).
Proof.
  destruct (Nat.le_gt_cases (length p) n) as [H|H].
  - rewrite (slice_last_short n p H). reflexivity.
  - unfold slice_last. rewrite !length_app, length_drop, !drop_app, drop_drop, length_drop.
    f_equal; f_equal; lia.
Qed.

Lemma step_transcript a e :
  transcript (ui (step a e)) =
  if hasDelta a e then slice_last 300 (transcript (ui a) ++ deltaOf a e)
  else transcript (ui a).
Proof.
  destruct e as [gum| |sid|sid m|sid|sid|sid|pid inp]; unfold step;
    cbn [react deltaOf hasDelta].
  - unfold startSession. destruct gum; reflexivity.
  - destruct a as [u r p]; destruct r as [sr ar ir mr pr sor cc tt];
      unfold stopSession, andThen, whenSome, finished, thrown, closeContext; cbn.
    destruct mr, sor, pr, ir as [i|], ar as [o|]; cbn;
      repeat match goal with
        | |- context [?l !! ?i] => destruct (l !! i) as [[|]|]; cbn
        end; reflexivity.
  - unfold onopen. destruct (sessions (env a) !! sid); reflexivity.
  - unfold onmessage. destruct (sessions (env a) !! sid) as [ses|] eqn:Hs; cbn; [|auto].
    unfold handleAudio.
    destruct (inputTranscription m) as [text|];
      destruct (turnComplete m), (audioData m) as [[|c d]|]; cbn; try reflexivity;
      match goal with |- context [rbind ?x ?k] => destruct (rbind x k) end;
      reflexivity.
  - unfold onclose. destruct (sessions (env a) !! sid); reflexivity.
  - unfold onerror. destruct (sessions (env a) !! sid); reflexivity.
  - reflexivity.
  - unfold onaudioprocess. destruct (delivers pid a); cbn; [|reflexivity].
    destruct (createBlob inp); reflexivity.
Qed.

Lemma run_transcript evs : forall a,
  length (transcript (ui a)) <= 300 ->
  transcript (ui (run a evs)) = slice_last 300 (transcript (ui a) ++ received a evs).
Proof.
  induction evs as [|e evs IH]; intros a Ha; cbn [run foldl received].
  - rewrite app_nil_r, slice_last_short; auto.
  - fold (run (step a e) evs).
    assert (Hstep : transcript (ui (step a e))
                    = slice_last 300 (transcript (ui a) ++ deltaOf a e)).
    { rewrite step_transcript. destruct (hasDelta a e) eqn:Hd; [reflexivity|].
      rewrite (hasDelta_false _ _ Hd), app_nil_r, slice_last_short; auto. }
    rewrite IH by (rewrite Hstep; apply slice_last_length).
    rewrite Hstep, slice_last_app, app_assoc. reflexivity.
Qed.

Lemma slice_last_is_suffix n s :
  length (slice_last n s) = Nat.min n (length s)
  /\ exists dropped, s = dropped ++ slice_last n s.
Proof.
  unfold slice_last. split; [rewrite length_drop; lia|].
  exists (take (length s - n) s). symmetry. apply take_drop.
Qed.

(** C10. The window of the display is 300 code units: from a state whose
    display is empty, the transcript on the screen after any events is the
    last 300 code units of all the transcript text received since, so it is
    never longer than 300; and the update of the display leaves the
    committed count and the turn buffer as they are.  The last 300: the
    display is the end of the received text, what is missing is at its
    start, and nothing is missing while the text received has no more than
    300 code units. *)
Theorem transcript_window (a : App) (evs : list Event) :
  transcript (ui a) = [] ->
  transcript (ui (run a evs)) = slice_last 300 (received a evs)
  /\ length (transcript (ui (run a evs))) <= 300
  /\ (forall f b,
        committedCountRef (refs (setTranscript f b)) = committedCountRef (refs b)
        /\ currentTurnTextRef (refs (setTranscript f b)) = currentTurnTextRef (refs b))
  /\ length (transcript (ui (run a evs))) = Nat.min 300 (length (received a evs))
  /\ exists dropped, received a evs = dropped ++ transcript (ui (run a evs)).
Proof.
  intros Ha.
  assert (H : transcript (ui (run a evs)) = slice_last 300 (received a evs)).
  { rewrite run_transcript by (rewrite Ha; cbn; lia). rewrite Ha. reflexivity. }
  split; [exact H|]. split; [rewrite H; apply slice_last_length|].
  split; [intros f b; split; reflexivity|].
  rewrite H. apply slice_last_is_suffix.
Qed.

(** Two deltas of 200 code units, 400 received: the display has 300, so the
    100 that are missing are the first 100 of the first delta. *)
Lemma transcript_window_witness :
  let evs := [EStart None; EOpen 0;
              EMessage 0 (mkMessage (Some (replicate 200 97%N)) false None);
              EMessage 0 (mkMessage (Some (replicate 200 98%N)) false None)] in
  length (received initial evs) = 400
  /\ transcript (ui (run initial evs)) = replicate 100 97%N ++ replicate 200 98%N.
Proof.
  intros evs.
  destruct (transcript_window initial evs eq_refl) as (_ & _ & _ & Hlen & dropped & Hsuf).
  assert (Hr : received initial evs = replicate 200 97%N ++ replicate 200 98%N)
    by (vm_compute; reflexivity).
  split; [rewrite Hr; reflexivity|].
  revert Hlen Hsuf. generalize (transcript (ui (run initial evs))) as t. intros t Hlen Hsuf.
  rewrite Hr in Hlen, Hsuf.
  assert (Hd : length dropped = 100).
  { apply (f_equal (@length _)) in Hsuf.
    rewrite !length_app, !length_replicate in Hsuf, Hlen.
    rewrite (length_app dropped t) in Hsuf. lia. }
  apply (f_equal (drop (length dropped))) in Hsuf.
  rewrite drop_app_length in Hsuf. rewrite <- Hsuf, Hd. vm_compute. reflexivity.
Defined.

(** Two deltas of 200 code units: the display keeps the last 100 of the
    first and all of the second. *)
Example transcript_truncates :
  transcript (ui (run initial
    [EStart None; EOpen 0;
     EMessage 0 (mkMessage (Some (replicate 200 97%N)) false None);
     EMessage 0 (mkMessage (Some (replicate 200 98%N)) false None)]))
  = replicate 100 97%N ++ replicate 200 98%N.
Proof. vm_compute. reflexivity. Qed.

End Transcript.

(** ** [btoa] and [atob] are inverse on byte strings *)

Section Base64Facts.

Import Base64.

Local Ltac Zify.zify_post_hook ::= Z.to_euclidean_division_equations.

(** Lists three elements at a time. *)
Lemma list_ind3 {A} (P : list A -> Prop) :
  P [] -> (forall a, P [a]) -> (forall a b, P [a; b]) ->
  (forall a b c l, P l -> P (a :: b :: c :: l)) ->
  forall l, P l.
Proof.
  intros H0 H1 H2 H3.
  fix IH 1. intros [|a [|b [|c l]]];
    [apply H0 | apply H1 | apply H2 | apply H3, IH].
Qed.

(** A property of all numbers below a bound, from its test on each. *)
Lemma below_bound (k : nat) (P : N -> bool) :
  forallb P (map N.of_nat (seq 0 k)) = true ->
  forall n, (n < N.of_nat k)%N -> P n = true.
Proof.
  intros H n Hn. rewrite forallb_forall in H. apply H.
  apply in_map_iff. exists (N.to_nat n). split; [lia|].
  apply in_seq. lia.
Qed.

Lemma decChar_encChar n : (n < 64)%N -> decChar (encChar n) = Some n.
Proof.
  intros Hn.
  pose proof (below_bound 64
    (fun n => match decChar (encChar n) with
              | Some m => (m =? n)%N | None => false end) eq_refl n Hn) as H.
  cbv beta in H. destruct (decChar (encChar n)); [|discriminate].
  apply N.eqb_eq in H. congruence.
Qed.

Lemma encChar_plain n :
  (n < 64)%N ->
  (encChar n =? pad)%N = false /\ isAsciiWhitespace (encChar n) = false.
Proof.
  intros Hn.
  pose proof (below_bound 64
    (fun n => negb (encChar n =? pad)%N && negb (isAsciiWhitespace (encChar n)))
    eq_refl n Hn) as H.
  cbv beta in H. apply andb_true_iff in H as [H1 H2].
  split; apply negb_true_iff; assumption.
Qed.

Lemma sextets_bound bs : Forall isByte bs -> Forall (fun n => n < 64)%N (sextets bs).
Proof.
  unfold isByte.
  induction bs as [|a|a b|a b c l IH] using list_ind3; intros H; cbn [sextets].
  - constructor.
  - inversion H; subst. repeat constructor; lia.
  - inversion H as [|? ? Ha H']; inversion H'; subst. repeat constructor; lia.
  - inversion H as [|? ? Ha H']; inversion H' as [|? ? Hb H''];
      inversion H'' as [|? ? Hc Hl]; subst.
    repeat (constructor; [lia|]). apply IH, Hl.
Qed.

Lemma sextetsToBytes_sextets bs : Forall isByte bs -> sextetsToBytes (sextets bs) = bs.
Proof.
  unfold isByte.
  induction bs as [|a|a b|a b c l IH] using list_ind3; intros H; cbn [sextets].
  - reflexivity.
  - inversion H; subst. cbn. f_equal. lia.
  - inversion H as [|? ? Ha H']; inversion H'; subst. cbn. f_equal; [lia|]. f_equal. lia.
  - inversion H as [|? ? Ha H']; inversion H' as [|? ? Hb H''];
      inversion H'' as [|? ? Hc Hl]; subst.
    cbn [app sextetsToBytes]. rewrite (IH Hl).
    f_equal; [lia|]. f_equal; [lia|]. f_equal. lia.
Qed.

Lemma sextets_length bs : length (sextets bs) mod 4 <> 1.
Proof.
  induction bs as [|a|a b|a b c l IH] using list_ind3; cbn [sextets length app];
    try (cbn; lia).
  replace (S (S (S (S (length (sextets l)))))) with (length (sextets l) + 1 * 4) by lia.
  rewrite Nat.Div0.mod_add. exact IH.
Qed.

(** The encoding is the characters of the sextets followed by at most two
    padding characters, and its length is a multiple of 4. *)
Lemma encodeBytes_sextets bs :
  exists k, k <= 2
    /\ encodeBytes bs = map encChar (sextets bs) ++ replicate k pad
    /\ length (encodeBytes bs) mod 4 = 0.
Proof.
  induction bs as [|a|a b|a b c l IH] using list_ind3.
  - exists 0. auto.
  - exists 2. auto.
  - exists 1. auto.
  - destruct IH as (k & Hk & Heq & Hlen). exists k. split; [exact Hk|].
    cbn [encodeBytes sextets app map]. rewrite Heq at 1. split; [reflexivity|].
    cbn [length].
    replace (S (S (S (S (length (encodeBytes l)))))) with (length (encodeBytes l) + 1 * 4) by lia.
    rewrite Nat.Div0.mod_add. exact Hlen.
Qed.

Lemma decodeChars_encChar sx :
  Forall (fun n => n < 64)%N sx -> decodeChars (map encChar sx) = Some sx.
Proof.
  induction 1 as [|n sx Hn _ IH]; [reflexivity|].
  cbn. rewrite (decChar_encChar n Hn), IH. reflexivity.
Qed.

Lemma filter_plain sx k :
  Forall (fun n => n < 64)%N sx ->
  List.filter (fun c => negb (isAsciiWhitespace c)) (map encChar sx ++ replicate k pad)
  = map encChar sx ++ replicate k pad.
Proof.
  intros H. induction H as [|n sx Hn _ IH]; cbn [map app].
  - induction k as [|k IHk]; [reflexivity|]. cbn. f_equal. exact IHk.
  - cbn [List.filter]. destruct (encChar_plain n Hn) as [_ ->]. cbn [negb]. f_equal. exact IH.
Qed.

Lemma stripPadding_pad body k :
  k <= 2 ->
  Forall (fun c => (c =? pad)%N = false) body ->
  length (body ++ replicate k pad) mod 4 = 0 ->
  stripPadding (body ++ replicate k pad) = body.
Proof.
  intros Hk Hb Hlen. unfold stripPadding.
  rewrite Hlen. cbn [Nat.eqb].
  assert (Hlast : forall c r, rev body = c :: r -> (c =? pad)%N = false).
  { intros c r Hr. rewrite List.Forall_forall in Hb. apply Hb.
    apply in_rev. rewrite Hr. left. reflexivity. }
  destruct k as [|[|[|k]]]; [| | |lia]; cbn [replicate].
  - rewrite app_nil_r in *.
    destruct (rev body) as [|c1 [|c2 r]] eqn:Hr; try reflexivity.
    rewrite (Hlast c1 _ eq_refl). reflexivity.
  - rewrite rev_app_distr. cbn [rev app].
    destruct (rev body) as [|c2 r] eqn:Hr.
    + apply (f_equal (@rev _)) in Hr. rewrite rev_involutive in Hr. subst body.
      cbn in Hlen. discriminate.
    + rewrite N.eqb_refl, (Hlast c2 r eq_refl).
      change (rev (c2 :: r) = body).
      rewrite <- Hr, rev_involutive. reflexivity.
  - rewrite rev_app_distr. cbn [rev app].
    rewrite !N.eqb_refl.
    rewrite rev_involutive. reflexivity.
Qed.

Lemma atob_encodeBytes bs : Forall isByte bs -> atob (encodeBytes bs) = Ok bs.
Proof.
  intros Hbs. pose proof (sextets_bound bs Hbs) as Hsx.
  destruct (encodeBytes_sextets bs) as (k & Hk & Heq & Hlen).
  unfold atob. rewrite Heq, filter_plain by exact Hsx.
  rewrite stripPadding_pad; [|exact Hk| |rewrite <- Heq; exact Hlen].
  2:{ apply List.Forall_forall. intros c Hc. apply in_map_iff in Hc as (n & <- & Hn).
      rewrite List.Forall_forall in Hsx. apply encChar_plain, Hsx, Hn. }
  rewrite length_map.
  destruct (length (sextets bs) mod 4 =? 1) eqn:Hm.
  { apply Nat.eqb_eq in Hm. destruct (sextets_length bs Hm). }
  rewrite decodeChars_encChar by exact Hsx.
  rewrite sextetsToBytes_sextets by exact Hbs. reflexivity.
Qed.

(** [decode] undoes [encode]. *)
Lemma decode_encode bs d :
  Forall isByte bs -> encode bs = Ok d -> decode d = Ok bs.
Proof.
  intros Hbs. unfold encode, btoa, decode.
  assert (Hmap : map fromCharCode bs = bs).
  { induction Hbs as [|b bs Hb _ IH]; [reflexivity|].
    cbn. rewrite IH. f_equal. unfold fromCharCode, isByte in *. lia. }
  rewrite Hmap.
  destruct (forallb (fun c => c <? 256)%N bs); [|discriminate].
  intros [= <-]. rewrite atob_encodeBytes by exact Hbs. cbn.
  f_equal. clear Hmap. induction Hbs as [|b bs Hb _ IH]; [reflexivity|].
  cbn. rewrite IH. f_equal. unfold isByte in Hb. lia.
Qed.

End Base64Facts.

(** ** The PCM codec *)

Section Codec.

Local Ltac Zify.zify_post_hook ::= Z.to_euclidean_division_equations.

Lemma wrap16_isInt16 z : isInt16 (wrap16 z).
Proof.
  unfold isInt16, wrap16. cbv zeta.
  destruct (z mod 65536 <? 32768)%Z eqn:H; [apply Z.ltb_lt in H|apply Z.ltb_ge in H]; lia.
Qed.

Lemma wrap16_id z : isInt16 z -> wrap16 z = z.
Proof.
  unfold isInt16, wrap16. cbv zeta. intros Hz.
  destruct (z mod 65536 <? 32768)%Z eqn:H; [apply Z.ltb_lt in H|apply Z.ltb_ge in H]; lia.
Qed.

Lemma toInt16_isInt16 x : isInt16 (toInt16 x).
Proof.
  destruct x; cbn; [apply wrap16_isInt16 | |]; unfold isInt16; lia.
Qed.

Lemma int16Bytes_isByte z : Forall isByte (int16Bytes z).
Proof. unfold int16Bytes, isByte. cbv zeta. repeat constructor; lia. Qed.

Lemma Uint8Array_isByte a : Forall isByte (Uint8Array_of_Int16Array a).
Proof.
  unfold Uint8Array_of_Int16Array. induction a as [|z a IH]; cbn; [constructor|].
  repeat constructor; [unfold isByte; lia | unfold isByte; lia | exact IH].
Qed.

Lemma Uint8Array_length a : length (Uint8Array_of_Int16Array a) = 2 * length a.
Proof.
  unfold Uint8Array_of_Int16Array. induction a as [|z a IH]; cbn in *; lia.
Qed.

Lemma int16OfBytes_int16Bytes z :
  isInt16 z ->
  int16OfBytes (Z.to_N (z mod 65536) mod 256) (Z.to_N (z mod 65536) / 256) = z.
Proof.
  unfold isInt16, int16OfBytes. cbv zeta. intros Hz.
  match goal with |- context [(?u <? 32768)%Z] =>
    destruct (u <? 32768)%Z eqn:H; [apply Z.ltb_lt in H|apply Z.ltb_ge in H] end; lia.
Qed.

Lemma int16Pairs_Uint8Array a :
  Forall isInt16 a -> int16Pairs (Uint8Array_of_Int16Array a) = a.
Proof.
  unfold Uint8Array_of_Int16Array.
  induction 1 as [|z a Hz _ IH]; [reflexivity|].
  cbn [map concat int16Bytes app int16Pairs].
  rewrite (int16OfBytes_int16Bytes z Hz), IH. reflexivity.
Qed.

(** The views are inverse: the bytes of an [Int16Array], seen again as an
    [Int16Array], are its elements. *)
Lemma Int16Array_of_Uint8Array a :
  Forall isInt16 a -> Int16Array_of_buffer (Uint8Array_of_Int16Array a) = Ok a.
Proof.
  intros Ha. unfold Int16Array_of_buffer.
  rewrite Uint8Array_length.
  replace (Nat.even (2 * length a)) with true.
  - rewrite int16Pairs_Uint8Array by exact Ha. reflexivity.
  - symmetry. apply Nat.even_spec. exists (length a). lia.
Qed.

Lemma createBlob_int16_isInt16 frame : Forall isInt16 (createBlob_int16 frame).
Proof.
  unfold createBlob_int16. induction frame as [|x frame IH]; cbn; constructor;
    [apply toInt16_isInt16 | exact IH].
Qed.

Lemma encode_bytes bs :
  Forall isByte bs -> encode bs = Ok (Base64.encodeBytes bs).
Proof.
  intros Hbs. unfold encode, Base64.btoa.
  assert (Hmap : map fromCharCode bs = bs).
  { induction Hbs as [|b bs Hb _ IH]; [reflexivity|].
    cbn. rewrite IH. f_equal. unfold fromCharCode, isByte in *. lia. }
  rewrite Hmap.
  replace (forallb (fun c => c <? 256)%N bs) with true; [reflexivity|].
  symmetry. apply forallb_forall. rewrite List.Forall_forall in Hbs.
  intros b Hb. apply N.ltb_lt, Hbs, Hb.
Qed.

(** [createBlob] never throws. *)
Lemma createBlob_ok frame :
  createBlob frame
  = Ok {| data := Base64.encodeBytes (Uint8Array_of_Int16Array (createBlob_int16 frame));
          mimeType := lit "audio/pcm;rate=16000" |}.
Proof.
  unfold createBlob. rewrite encode_bytes by apply Uint8Array_isByte. reflexivity.
Qed.

(** Truncation toward zero misses its argument by less than one. *)
Lemma truncate_bounds q :
  (inject_Z (truncate q) - 1 < q /\ q < inject_Z (truncate q) + 1)%Q.
Proof.
  destruct q as [n d]. unfold truncate, Qlt, Qminus, Qplus, Qopp, inject_Z. cbn.
  pose proof (Z.quot_rem' n (Z.pos d)) as Hqr.
  pose proof (Z.rem_bound_pos_pos n (Z.pos d)) as Hpos.
  pose proof (Z.rem_bound_pos_neg n (Z.pos d)) as Hneg.
  assert (Hd : (0 < Z.pos d)%Z) by lia.
  destruct (Z.le_gt_cases 0 n) as [Hn|Hn].
  - specialize (Hpos Hd Hn). nia.
  - specialize (Hneg Hd (Z.lt_le_incl _ _ Hn)). nia.
Qed.

Lemma truncate_scaled_isInt16 q :
  belowFullScale (Num q) = true -> isInt16 (truncate (q * 32768)).
Proof.
  cbn. intros H. apply andb_true_iff in H as [Hlo Hhi].
  apply Qle_bool_iff in Hlo. apply negb_true_iff in Hhi.
  assert (Hhi' : (q < 1)%Q).
  { apply Qnot_le_lt. intros Hc. apply Qle_bool_iff in Hc. congruence. }
  destruct q as [n d]. unfold truncate, isInt16, Qle, Qlt in *. cbn in *.
  rewrite Pos.mul_1_r. clear Hhi. nia.
Qed.

(** *** [decodeAudioData] *)

Lemma int16Pairs_length data : length (int16Pairs data) = length data / 2.
Proof.
  revert data. fix IH 1. intros [|lo [|hi rest]]; [reflexivity | reflexivity |].
  cbn [int16Pairs length]. rewrite IH.
  change (S (S (length rest))) with (1 * 2 + length rest).
  rewrite Nat.div_add_l by lia. reflexivity.
Qed.

Lemma fillChannel_length dataInt16 nc channel iterations channelData :
  length (fillChannel dataInt16 nc channel iterations channelData) = length channelData.
Proof.
  unfold fillChannel. generalize (seq 0 iterations) as idx. intros idx.
  revert channelData. induction idx as [|i idx IH]; intros cd; [reflexivity|].
  cbn [foldl]. rewrite IH, length_insert. reflexivity.
Qed.

Lemma supports_conforming ctx nc rate :
  conforming ctx -> supports requiredSupport nc rate = true -> supports ctx nc rate = true.
Proof.
  intros (Hc & Hlo & Hhi). unfold supports. cbn [requiredSupport maxChannels minSampleRate maxSampleRate].
  rewrite !andb_true_iff, !Nat.leb_le, !N.leb_le. lia.
Qed.

(** At a channel count and a sample rate that the API requires, every
    implementation makes the same buffer. *)
Lemma decodeAudioData_conforming data ctx rate nc :
  conforming ctx -> supports requiredSupport nc rate = true ->
  decodeAudioData data ctx rate nc = decodeAudioData data requiredSupport rate nc.
Proof.
  intros Hc Hs. unfold decodeAudioData, createBuffer.
  rewrite (supports_conforming ctx nc rate Hc Hs), Hs. reflexivity.
Qed.

(** When [decodeAudioData] throws, and the shape of what it returns. *)
Lemma decodeAudioData_cases data ctx rate nc :
  match decodeAudioData data ctx rate nc with
  | Throw e =>
      e = RangeError /\ Nat.even (length data) = false
      \/ e = NotSupportedError /\ Nat.even (length data) = true
         /\ (nc = 0 \/ length data / 2 < nc \/ rate = 0%N \/ supports ctx nc rate = false)
  | Ok buffer =>
      Nat.even (length data) = true /\ 0 < nc <= length data / 2
      /\ rate <> 0%N /\ supports ctx nc rate = true
      /\ sampleRate buffer = rate
      /\ length (channels buffer) = nc
      /\ Forall (fun ch => length ch = length data / 2 / nc) (channels buffer)
  end.
Proof.
  unfold decodeAudioData, Int16Array_of_buffer.
  destruct (Nat.even (length data)) eqn:He; cbn [rbind]; [|auto].
  rewrite int16Pairs_length. unfold createBuffer.
  destruct (nc =? 0) eqn:Hn; cbn [orb rbind].
  { apply Nat.eqb_eq in Hn. right. auto. }
  apply Nat.eqb_neq in Hn.
  destruct (length data / 2 / nc =? 0) eqn:Hf; cbn [orb rbind].
  { apply Nat.eqb_eq in Hf. right. split; [reflexivity|]. split; [reflexivity|].
    right. left. apply Nat.div_small_iff in Hf; lia. }
  apply Nat.eqb_neq in Hf.
  destruct (rate =? 0)%N eqn:Hr; cbn [orb rbind].
  { apply N.eqb_eq in Hr. right. split; [reflexivity|]. split; [reflexivity|].
    right. right. left. exact Hr. }
  apply N.eqb_neq in Hr.
  destruct (supports ctx nc rate) eqn:Hs; cbn [negb rbind].
  2:{ right. split; [reflexivity|]. split; [reflexivity|]. right. right. right.
      reflexivity. }
  cbn [channels sampleRate].
  repeat split; auto; try lia.
  - destruct (Nat.le_gt_cases nc (length data / 2)) as [H|H]; [exact H|].
    apply Nat.div_small in H. contradiction.
  - rewrite length_imap, length_replicate. reflexivity.
  - apply Forall_lookup_2. intros i ch Hi.
    rewrite list_lookup_imap in Hi.
    destruct (replicate nc (replicate (length data / 2 / nc) (Num 0)) !! i) as [cd|] eqn:Hcd;
      [|discriminate].
    apply lookup_replicate in Hcd as [-> _].
    cbn in Hi. injection Hi as <-.
    rewrite fillChannel_length, length_replicate. reflexivity.
Qed.

Lemma foldl_insert_seq {A} (g : nat -> A) k : forall l : list A,
  k <= length l ->
  foldl (fun cd i => <[i := g i]> cd) l (seq 0 k) = map g (seq 0 k) ++ drop k l.
Proof.
  induction k as [|k IH]; intros l Hk; [reflexivity|].
  rewrite seq_S, foldl_snoc, IH by lia. cbn [Nat.add].
  destruct (lookup_lt_is_Some_2 l k ltac:(lia)) as [y Hy].
  rewrite (drop_S l y k Hy).
  rewrite insert_app_r_alt by (rewrite length_map, length_seq; lia).
  rewrite length_map, length_seq, Nat.sub_diag. cbn [insert list_insert].
  rewrite map_app, <- app_assoc. reflexivity.
Qed.

Lemma map_lookup_seq {A B} (f : option A -> B) (l : list A) :
  map (fun i => f (l !! i)) (seq 0 (length l)) = map (fun x => f (Some x)) l.
Proof.
  induction l as [|x l IH] using rev_ind; [reflexivity|].
  rewrite length_app, Nat.add_comm. cbn [length Nat.add].
  rewrite seq_S, !map_app. cbn [Nat.add map].
  rewrite lookup_app_r, Nat.sub_diag by lia. cbn [lookup list_lookup].
  f_equal. rewrite <- IH. apply map_ext_in. intros i Hi.
  apply in_seq in Hi. rewrite lookup_app_l by lia. reflexivity.
Qed.

(** The loop of [fillChannel] when it runs past the end of the channel: the
    stores past the end are lost. *)
Lemma foldl_insert_seq_past {A} (g : nat -> A) (l : list A) : forall k,
  length l <= k ->
  foldl (fun cd i => <[i := g i]> cd) l (seq 0 k) = map g (seq 0 (length l)).
Proof.
  intros k Hk. replace k with (length l + (k - length l)) by lia.
  generalize (k - length l) as d. clear k Hk.
  induction d as [|d IH].
  - rewrite Nat.add_0_r, foldl_insert_seq, drop_all, app_nil_r by lia. reflexivity.
  - rewrite Nat.add_succ_r, seq_S, foldl_snoc, IH. cbn [Nat.add].
    apply list_insert_ge. rewrite length_map, length_seq. lia.
Qed.

Lemma imap_replicate {A B} (f : nat -> A -> B) (x : A) n :
  imap f (replicate n x) = map (fun i => f i x) (seq 0 n).
Proof.
  apply list_eq. intros i. rewrite list_lookup_imap, list_lookup_fmap.
  destruct (decide (i < n)) as [Hi|Hi].
  - rewrite lookup_replicate_2 by exact Hi.
    rewrite lookup_seq_lt by exact Hi. reflexivity.
  - rewrite (proj1 (lookup_replicate_None n x i)) by lia.
    rewrite lookup_seq_ge by lia. reflexivity.
Qed.

(** What [decodeAudioData] returns: frame [i] of channel [c] is the 16-bit
    sample number [i * nc + c] divided by 32768, for the whole frames only. *)
Lemma decodeAudioData_returns data ctx rate nc buffer :
  decodeAudioData data ctx rate nc = Ok buffer ->
  buffer
  = {| sampleRate := rate;
       channels :=
         map (fun c =>
                map (fun i => Num (inject_Z (nth (i * nc + c) (int16Pairs data) 0%Z) / 32768))
                    (seq 0 (length data / 2 / nc)))
             (seq 0 nc) |}.
Proof.
  intros H.
  pose proof (decodeAudioData_cases data ctx rate nc) as Hc. rewrite H in Hc.
  destruct Hc as (He & [Hn0 Hn] & Hr0 & Hs & _).
  pose proof (int16Pairs_length data) as Hlen.
  set (frames := length data / 2 / nc).
  assert (Hf : 0 < frames) by (unfold frames; apply Nat.div_str_pos; lia).
  assert (Hfit : frames * nc <= length (int16Pairs data)).
  { rewrite Hlen. unfold frames. rewrite Nat.mul_comm. apply Nat.Div0.mul_div_le. }
  revert H. unfold decodeAudioData, Int16Array_of_buffer. rewrite He. cbn [rbind].
  unfold createBuffer. rewrite Hlen, Hs. fold frames.
  replace (nc =? 0) with false by (symmetry; apply Nat.eqb_neq; lia).
  replace (frames =? 0) with false by (symmetry; apply Nat.eqb_neq; lia).
  replace (rate =? 0)%N with false by (symmetry; apply N.eqb_neq, Hr0).
  cbn [orb negb rbind channels sampleRate]. intros H.
  apply (f_equal (fun r => match r with Ok b => b | Throw _ => buffer end)) in H.
  rewrite <- H. f_equal.
  rewrite imap_replicate. apply map_ext_in. intros c Hcin. apply in_seq in Hcin.
  unfold fillChannel. rewrite foldl_insert_seq_past.
  - rewrite length_replicate. apply map_ext_in. intros i Hi. apply in_seq in Hi.
    assert (Hidx : i * nc + c < length (int16Pairs data)) by nia.
    destruct (lookup_lt_is_Some_2 _ _ Hidx) as [z Hz].
    rewrite (nth_lookup_Some _ _ 0%Z _ Hz), Hz. reflexivity.
  - rewrite length_replicate. unfold frames.
    apply Nat.Div0.div_le_mono. lia.
Qed.

(** At one channel, a non-empty buffer of even length decodes to one
    channel with a frame for each 16-bit sample. *)
Lemma decodeAudioData_mono data ctx rate :
  Nat.even (length data) = true -> data <> [] ->
  rate <> 0%N -> supports ctx 1 rate = true ->
  decodeAudioData data ctx rate 1
  = Ok {| sampleRate := rate;
          channels := [map (fun z => sampleOfInt16 (Some z)) (int16Pairs data)] |}.
Proof.
  intros He Hne Hr Hs. unfold decodeAudioData, Int16Array_of_buffer. rewrite He. cbn [rbind].
  assert (Hn : length (int16Pairs data) <> 0).
  { rewrite int16Pairs_length. destruct data as [|a [|b rest]]; [congruence|discriminate|].
    change (length (a :: b :: rest)) with (1 * 2 + length rest).
    rewrite Nat.div_add_l by lia. lia. }
  unfold createBuffer. rewrite Nat.div_1_r, Hs.
  destruct (length (int16Pairs data) =? 0) eqn:H0; [apply Nat.eqb_eq in H0; contradiction|].
  replace (rate =? 0)%N with false by (symmetry; apply N.eqb_neq, Hr).
  cbn [Nat.eqb orb negb rbind sampleRate channels replicate imap].
  replace (length (int16Pairs data) + 1 - 1) with (length (int16Pairs data)) by lia.
  rewrite Nat.div_1_r. unfold fillChannel.
  rewrite (foldl_insert_seq
             (fun i => sampleOfInt16 (int16Pairs data !! (i * 1 + 0))))
    by (rewrite length_replicate; lia).
  rewrite drop_ge, app_nil_r by (rewrite length_replicate; lia).
  f_equal. f_equal. f_equal.
  rewrite <- (map_lookup_seq sampleOfInt16).
  apply map_ext. intros i. rewrite Nat.mul_1_r, Nat.add_0_r. reflexivity.
Qed.

(** *** The round trip below full scale *)

Lemma sample_roundTrip q :
  belowFullScale (Num q) = true ->
  closeTo (Num q) (sampleOfInt16 (Some (toInt16 (fmul (Num q) 32768)))).
Proof.
  intros Hq. cbn [fmul toInt16 sampleOfInt16 closeTo].
  rewrite wrap16_id by (apply truncate_scaled_isInt16, Hq).
  destruct (truncate_bounds (q * 32768)) as [Hlo Hhi].
  set (t := inject_Z (truncate (q * 32768))) in *.
  apply Qabs_Qlt_condition.
  unfold Qdiv. change (/ 32768)%Q with (1 # 32768)%Q.
  split; lra.
Qed.

Lemma roundTrip_below_full_scale ctx frame rate :
  rate <> 0%N -> supports ctx 1 rate = true ->
  frame <> [] -> forallb belowFullScale frame = true ->
  exists out,
    roundTrip ctx frame rate = Ok {| sampleRate := rate; channels := [out] |}
    /\ Forall2 closeTo frame out.
Proof.
  intros Hr Hs Hne Hall. unfold roundTrip.
  rewrite createBlob_ok. cbn [rbind data].
  rewrite (decode_encode _ _ (Uint8Array_isByte _) (encode_bytes _ (Uint8Array_isByte _))).
  cbn [rbind].
  rewrite decodeAudioData_mono; [| |destruct frame; [congruence|]; discriminate|exact Hr|exact Hs].
  - rewrite int16Pairs_Uint8Array by apply createBlob_int16_isInt16.
    eexists. split; [reflexivity|].
    unfold createBlob_int16. clear Hne.
    induction frame as [|x frame IH]; [constructor|].
    cbn in Hall. apply andb_true_iff in Hall as [Hx Hall].
    cbn [map]. constructor; [|apply IH, Hall].
    destruct x as [q| |]; try discriminate. apply sample_roundTrip, Hx.
  - rewrite Uint8Array_length. apply Nat.even_spec. eexists. reflexivity.
Qed.

(** The round trip on any frame and any implementation. *)
Lemma createBuffer_unsupported ctx nc len rate :
  (rate =? 0)%N || negb (supports ctx nc rate) = true ->
  createBuffer ctx nc len rate = Throw NotSupportedError.
Proof.
  intros H. unfold createBuffer. rewrite <- !orb_assoc, H, !orb_true_r. reflexivity.
Qed.

Lemma roundTrip_requantize ctx frame rate :
  roundTrip ctx frame rate
  = match frame with
    | [] => Throw NotSupportedError
    | _ :: _ =>
        if (rate =? 0)%N || negb (supports ctx 1 rate) then Throw NotSupportedError
        else Ok {| sampleRate := rate; channels := [map requantize frame] |}
    end.
Proof.
  destruct frame as [|x frame]; [reflexivity|].
  unfold roundTrip. rewrite createBlob_ok. cbn [rbind data].
  rewrite (decode_encode _ _ (Uint8Array_isByte _) (encode_bytes _ (Uint8Array_isByte _))).
  cbn [rbind].
  assert (He : Nat.even (length (Uint8Array_of_Int16Array (createBlob_int16 (x :: frame))))
               = true).
  { rewrite Uint8Array_length. apply Nat.even_spec. eexists. reflexivity. }
  destruct ((rate =? 0)%N || negb (supports ctx 1 rate)) eqn:Hu.
  - unfold decodeAudioData, Int16Array_of_buffer. rewrite He. cbn [rbind].
    rewrite (createBuffer_unsupported _ _ _ _ Hu). reflexivity.
  - apply orb_false_iff in Hu as [Hr Hs].
    apply N.eqb_neq in Hr. apply negb_false_iff in Hs.
    rewrite decodeAudioData_mono; [|exact He|discriminate|exact Hr|exact Hs].
    rewrite int16Pairs_Uint8Array by apply createBlob_int16_isInt16.
    unfold createBlob_int16. rewrite map_map. reflexivity.
Qed.

Lemma int16Bytes_little_endian z :
  int16Bytes z = [Z.to_N (z mod 256); Z.to_N ((z / 256) mod 256)].
Proof.
  unfold int16Bytes. cbv zeta. f_equal; [lia|]. f_equal. lia.
Qed.

(** C3, at the sample 1.0.  The product 1.0 * 32768 is 32768, one more than
    an [Int16Array] element holds; the store wraps it to -32768, and the
    frame [1.0] comes back as [-1.0]: 2 away from the original, not
    1/32768.  So it is at 16000 Hz, the rate of the capture, on the
    implementation with the required support, and on every implementation
    that makes a buffer of that rate at all. *)
Theorem roundTrip_full_scale :
  inUnitRange (Num 1) = true
  /\ createBlob_int16 [Num 1] = [(-32768)%Z]
  /\ roundTrip requiredSupport [Num 1] 16000
     = Ok {| sampleRate := 16000; channels := [[Num (-32768 # 32768)]] |}
  /\ (-32768 # 32768 == -1)%Q
  /\ ~ (Qabs (1 - (-32768 # 32768)) <= 1 # 32768)%Q
  /\ (forall ctx,
        roundTrip ctx [Num 1] 16000
        = if supports ctx 1 16000
          then Ok {| sampleRate := 16000; channels := [[Num (-32768 # 32768)]] |}
          else Throw NotSupportedError).
Proof.
  split; [reflexivity|]. split; [reflexivity|].
  split; [vm_compute; reflexivity|]. split; [reflexivity|].
  split; [intros H; vm_compute in H; apply H; reflexivity|].
  intros ctx. rewrite roundTrip_requantize. cbn [N.eqb orb].
  destruct (supports ctx 1 16000); cbn [negb]; [|reflexivity].
  vm_compute. reflexivity.
Qed.

(** C4, as amended.  [createBlob] returns for every frame, NaN and the
    infinities included: the blob carries the tag of the source and, as
    data, the base64 text of the bytes of the 16-bit integers, low byte
    first; [decode] gives the bytes back, and the bytes read as an
    [Int16Array] give the integers back.  Every integer is in the 16-bit
    range; the integer of a sample of [-1, 1) is the sample times 32768,
    truncated toward zero; the integer of NaN or an infinity is 0. *)
Theorem createBlob_scales_by_32768 (frame : list float) :
  let int16 := createBlob_int16 frame in
  let bytes := Uint8Array_of_Int16Array int16 in
  createBlob frame
  = Ok {| data := Base64.encodeBytes bytes; mimeType := lit "audio/pcm;rate=16000" |}
  /\ decode (Base64.encodeBytes bytes) = Ok bytes
  /\ bytes = concat (map (fun z => [Z.to_N (z mod 256); Z.to_N ((z / 256) mod 256)]) int16)
  /\ Int16Array_of_buffer bytes = Ok int16
  /\ Forall isInt16 int16
  /\ Forall2 (fun x z =>
                match x with
                | Num q => if belowFullScale x then z = truncate (q * 32768) else True
                | NaN | Inf _ => z = 0%Z
                end) frame int16.
Proof.
  intros int16 bytes.
  pose proof (createBlob_int16_isInt16 frame) as Hint. fold int16 in Hint.
  split; [apply createBlob_ok|].
  split; [apply (decode_encode bytes); [apply Uint8Array_isByte | apply encode_bytes, Uint8Array_isByte]|].
  split.
  { unfold bytes, Uint8Array_of_Int16Array. f_equal. apply map_ext.
    intros z. apply int16Bytes_little_endian. }
  split; [apply Int16Array_of_Uint8Array, Hint|].
  split; [exact Hint|].
  unfold int16, createBlob_int16. clear.
  induction frame as [|x frame IH]; [constructor|].
  cbn [map]. constructor; [|exact IH].
  destruct x as [q| |]; [|reflexivity|reflexivity].
  destruct (belowFullScale (Num q)) eqn:Hq; [|exact I].
  cbn [fmul toInt16]. apply wrap16_id, truncate_scaled_isInt16, Hq.
Qed.

(** C4, as stated, fails: the sample 1.5 becomes -16384, where a clamp
    gives 32767 (or 1) whatever the scale is read to be; and the sample 0.5
    becomes 16384, which neither the scale 32767 nor the scale 32767/32768
    gives. *)
Lemma createBlob_not_clamped :
  createBlob_int16 [Num (3 # 2)] = [(-16384)%Z]
  /\ Forall (fun scale => createBlob_int16 [Num (3 # 2)]
                          <> [scaleAndClamp scale (Num (3 # 2))])
            [32767 # 1; 32768 # 1; 32767 # 32768]%Q
  /\ createBlob_int16 [Num (1 # 2)] = [16384%Z]
  /\ Forall (fun scale => createBlob_int16 [Num (1 # 2)]
                          <> [scaleAndClamp scale (Num (1 # 2))])
            [32767 # 1; 32767 # 32768]%Q.
Proof.
  split; [reflexivity|]. split; [repeat constructor; vm_compute; discriminate|].
  split; [reflexivity|]. repeat constructor; vm_compute; discriminate.
Qed.

(** *** Audio in a message *)

Lemma isThrow_decodeAudioData data ctx rate nc :
  isThrow (decodeAudioData data ctx rate nc)
  = negb (Nat.even (length data)) || (nc =? 0) || (length data / 2 <? nc)
    || (rate =? 0)%N || negb (supports ctx nc rate).
Proof.
  pose proof (decodeAudioData_cases data ctx rate nc) as H.
  destruct (decodeAudioData data ctx rate nc) as [b|e]; cbn [isThrow].
  - destruct H as (He & Hn & Hr & Hs & _). rewrite He, Hs. cbn [negb orb].
    symmetry. rewrite !orb_false_r. rewrite !orb_false_iff.
    repeat split; [apply Nat.eqb_neq | apply Nat.ltb_ge | apply N.eqb_neq]; auto; lia.
  - symmetry. destruct H as [[_ He]|(_ & He & [Hn|[Hn|[Hn|Hn]]])]; rewrite He; cbn [negb orb];
      [reflexivity| | | |].
    + subst nc. reflexivity.
    + apply Nat.ltb_lt in Hn. rewrite Hn, orb_true_r. reflexivity.
    + subst rate. rewrite N.eqb_refl, orb_true_r. reflexivity.
    + rewrite Hn. apply orb_true_r.
Qed.

Lemma quiet_message a sid m :
  react (EMessage sid (withoutAudio m)) a = (step a (EMessage sid (withoutAudio m)), None)
  /\ env (step a (EMessage sid (withoutAudio m))) = env a
  /\ isRecording (ui (step a (EMessage sid (withoutAudio m)))) = isRecording (ui a)
  /\ error (ui (step a (EMessage sid (withoutAudio m)))) = error (ui a).
Proof.
  unfold step. cbn [react]. unfold onmessage.
  destruct (sessions (env a) !! sid); [|auto].
  cbn [withoutAudio inputTranscription turnComplete audioData handleAudio].
  destruct (inputTranscription m), (turnComplete m); auto.
Qed.

Lemma decode_nil : decode [] = Ok [].
Proof. reflexivity. Qed.

(** C5, as amended.  [decodeAudioData] has no check of its own on the
    channel count.  It throws exactly in these cases: the byte length is odd
    (the RangeError of the 16-bit view); or, the length being even, there is
    not one whole frame, or the channel count or the sample rate is zero or
    one that the implementation does not support (the NotSupportedError of
    [createBuffer]).  When it returns, samples that do not fill a frame are
    dropped: each of the [numChannels] channels has the integer part of
    [samples / numChannels] frames, frame [i] of channel [c] being sample
    [i * numChannels + c] divided by 32768.  In [onmessage], which decodes at
    24000 Hz and one channel, a chunk of odd byte length ends the callback
    with the RangeError after the transcript part of the message has been
    handled: nothing is played, and the state is the one the message
    without its audio leaves, so the platform, [isRecording] and [error] are
    as before.  The next chunk, of even length and not empty, is decoded, on
    every conforming implementation, to one channel with a frame for each
    16-bit sample, and played. *)
Theorem malformed_audio_chunk
    (a : App) (sid : nat) (ses : Session) (m m' : LiveServerMessage)
    (d d' : jsstring) (bytes bytes' : list byte) :
  let a1 := step a (EMessage sid m) in
  let a2 := step a1 (EMessage sid (withoutAudio m')) in
  sessions (env a) !! sid = Some ses ->
  audioData m = Some d -> decode d = Ok bytes -> Nat.even (length bytes) = false ->
  audioData m' = Some d' -> decode d' = Ok bytes' ->
  Nat.even (length bytes') = true -> bytes' <> [] ->
  (forall data ctx rate nc,
     let samples := length data / 2 in
     match decodeAudioData data ctx rate nc with
     | Throw e =>
         Nat.even (length data) = false /\ e = RangeError
         \/ Nat.even (length data) = true /\ e = NotSupportedError
            /\ (nc = 0 \/ samples < nc \/ rate = 0%N \/ supports ctx nc rate = false)
     | Ok buffer =>
         Nat.even (length data) = true /\ 0 < nc <= samples
         /\ rate <> 0%N /\ supports ctx nc rate = true
         /\ buffer
            = {| sampleRate := rate;
                 channels :=
                   map (fun c =>
                          map (fun i => Num (inject_Z (nth (i * nc + c) (int16Pairs data) 0%Z)
                                             / 32768))
                              (seq 0 (samples / nc)))
                       (seq 0 nc) |}
     end)
  /\ (forall ctx, decodeAudioData bytes ctx 24000 1 = Throw RangeError)
  /\ react (EMessage sid m) a = (step a (EMessage sid (withoutAudio m)), Some RangeError)
  /\ env a1 = env a
  /\ isRecording (ui a1) = isRecording (ui a)
  /\ error (ui a1) = error (ui a)
  /\ exists buffer,
       (forall ctx, conforming ctx -> decodeAudioData bytes' ctx 24000 1 = Ok buffer)
       /\ channels buffer = [map (fun z => sampleOfInt16 (Some z)) (int16Pairs bytes')]
       /\ length (int16Pairs bytes') = length bytes' / 2
       /\ react (EMessage sid m') a1
          = (set_played (played (env a2) ++ [(s_outputCtx ses, buffer)]) a2, None).
Proof.
  intros a1 a2 Hs Hd Hb Hodd Hd' Hb' Heven Hne.
  assert (Hthrow : forall ctx, decodeAudioData bytes ctx 24000 1 = Throw RangeError).
  { intros ctx. unfold decodeAudioData, Int16Array_of_buffer. rewrite Hodd. reflexivity. }
  assert (Hmono : decodeAudioData bytes' requiredSupport 24000 1
                  = Ok {| sampleRate := 24000;
                          channels := [map (fun z => sampleOfInt16 (Some z))
                                           (int16Pairs bytes')] |}).
  { apply decodeAudioData_mono; [assumption|assumption|discriminate|reflexivity]. }
  assert (Hm : react (EMessage sid m) a
               = (step a (EMessage sid (withoutAudio m)), Some RangeError)).
  { unfold step. cbn [react]. unfold onmessage. rewrite Hs.
    cbn [withoutAudio inputTranscription turnComplete audioData handleAudio].
    rewrite Hd. unfold handleAudio.
    destruct d as [|c d0].
    { rewrite decode_nil in Hb. injection Hb as <-. discriminate. }
    rewrite Hb. cbn [rbind]. rewrite Hthrow. reflexivity. }
  assert (Ha1 : a1 = step a (EMessage sid (withoutAudio m))).
  { unfold a1, step at 1. rewrite Hm. reflexivity. }
  destruct (quiet_message a sid m) as (_ & He & Hr & Herr).
  split.
  { intros data ctx rate nc samples.
    pose proof (decodeAudioData_cases data ctx rate nc) as Hc.
    destruct (decodeAudioData data ctx rate nc) as [buffer|e] eqn:Hdec.
    - destruct Hc as (H1 & H2 & H3 & H4 & _).
      repeat (split; [assumption|]). apply (decodeAudioData_returns _ _ _ _ _ Hdec).
    - destruct Hc as [[-> Hc]|(-> & Hc & Hwhy)]; [left|right]; auto. }
  split; [exact Hthrow|]. split; [exact Hm|].
  rewrite Ha1. split; [exact He|]. split; [exact Hr|]. split; [exact Herr|].
  eexists. split.
  { intros ctx Hctx. rewrite (decodeAudioData_conforming _ ctx) by (exact Hctx || reflexivity).
    exact Hmono. }
  split; [reflexivity|]. split; [apply int16Pairs_length|].
  rewrite <- Ha1.
  assert (Hs1 : sessions (env a1) !! sid = Some ses).
  { rewrite Ha1, He. exact Hs. }
  unfold a2, step. cbn [react]. unfold onmessage. rewrite Hs1.
  cbn [withoutAudio inputTranscription turnComplete audioData handleAudio fst].
  rewrite Hd'. unfold handleAudio.
  destruct d' as [|c d0].
  { rewrite decode_nil in Hb'. injection Hb' as <-. congruence. }
  rewrite Hb'. cbn [rbind]. rewrite Hmono.
  destruct (inputTranscription m'), (turnComplete m'); reflexivity.
Qed.

(** A chunk of one byte, then a chunk of one sample; and, by the first part,
    five samples at two channels: two frames, the fifth sample dropped. *)
Lemma malformed_audio_chunk_witness :
  let a := run initial [EStart None; EOpen 0] in
  let m := mkMessage None false (Some (lit "AA==")) in
  let m' := mkMessage None false (Some (lit "AQA=")) in
  snd (react (EMessage 0 m) a) = Some RangeError
  /\ played (env (fst (react (EMessage 0 m') (step a (EMessage 0 m)))))
     = [(1, {| sampleRate := 24000; channels := [[Num (1 # 32768)]] |})]
  /\ decodeAudioData [1; 0; 2; 0; 3; 0; 4; 0; 5; 0]%N requiredSupport 48000 2
     = Ok {| sampleRate := 48000;
             channels := [[Num (1 # 32768); Num (3 # 32768)];
                          [Num (2 # 32768); Num (4 # 32768)]] |}.
Proof.
  intros a m m'.
  destruct (malformed_audio_chunk a 0 (mkSession 0 1 0 false [] []) m m'
              (lit "AA==") (lit "AQA=") [0%N] [1%N; 0%N])
    as (Hgen & _ & Hm & _ & _ & _ & buffer & Hdec & _ & _ & Hm');
    try reflexivity; try discriminate.
  split; [rewrite Hm; reflexivity|]. split.
  - rewrite Hm'.
    assert (Hc : conforming requiredSupport) by (unfold conforming; cbn; lia).
    pose proof (Hdec _ Hc) as H. vm_compute in H. injection H as <-.
    vm_compute. reflexivity.
  - pose proof (Hgen [1; 0; 2; 0; 3; 0; 4; 0; 5; 0]%N requiredSupport 48000%N 2) as H.
    cbv zeta in H.
    destruct (decodeAudioData [1; 0; 2; 0; 3; 0; 4; 0; 5; 0]%N requiredSupport 48000 2)
      as [b|e].
    + destruct H as (_ & _ & _ & _ & ->). vm_compute. reflexivity.
    + exfalso. destruct H as [[H _]|(_ & _ & [H|[H|[H|H]]])];
        vm_compute in H; try discriminate; lia.
Defined.

(** C5, as stated, fails at two channels: six bytes are not a multiple of
    [2 * 2], and [decodeAudioData] returns a buffer of one frame; the third
    sample is dropped. *)
Lemma decodeAudioData_partial_frame :
  length [1; 0; 2; 0; 3; 0]%N mod (2 * 2) <> 0
  /\ decodeAudioData [1; 0; 2; 0; 3; 0]%N requiredSupport 24000 2
     = Ok {| sampleRate := 24000;
             channels := [[Num (1 # 32768)]; [Num (2 # 32768)]] |}.
Proof. split; [discriminate | vm_compute; reflexivity]. Qed.

End Codec.

(** ** Stopping *)

Section Stop.

Ltac stop_cases a :=
  destruct a as [u r p]; destruct r as [sr ar ir mr pr sor cc tt];
  destruct p as [ctxs strs srcs procs sess pl];
  unfold stopSession, andThen, whenSome, finished, thrown, closeContext; cbn;
  destruct mr as [m|]; cbn;
  destruct sor as [so|]; cbn; try (destruct pr as [pp|]; cbn);
  try (destruct ir as [i|]; cbn;
       [match goal with |- context [?l !! i] => destruct (l !! i) as [[|]|] eqn:? end; cbn|]);
  try (destruct ar as [o|]; cbn;
       [match goal with |- context [?l !! o] => destruct (l !! o) as [[|]|] eqn:? end; cbn|]).

(** C8.  A second [stopSession] after one that has completed changes
    nothing: the state it returns is the state it was given, refs, counters,
    platform and all, and it ends without an exception. *)
Theorem stopSession_idempotent (a a' : App) :
  stopSession a = (a', None) -> stopSession a' = (a', None).
Proof.
  stop_cases a; intros [= <-]; try discriminate;
    unfold stopSession, andThen, whenSome, finished; cbn;
    rewrite ?count_nil, ?Nat.add_0_r; reflexivity.
Qed.

Ltac open_state a :=
  destruct a as [u r p]; destruct r as [sr ar ir mr pr sor cc tt];
  destruct p as [ctxs strs srcs procs sess pl].

(** What [stopSession] leaves alone, whether it completes or not. *)
Lemma stopSession_frame a :
  sessionRef (refs (fst (stopSession a))) = sessionRef (refs a)
  /\ sessions (env (fst (stopSession a))) = sessions (env a)
  /\ played (env (fst (stopSession a))) = played (env a).
Proof. stop_cases a; auto. Qed.

Lemma stopSession_releases a :
  refsValid a -> released a (fst (stopSession a)).
Proof.
  unfold refsValid, released.
  open_state a. cbn [refs env inputAudioContextRef audioContextRef mediaStreamRef
                     sourceRef processorRef contexts streams sources processors].
  intros (Hi & Ho & Hm & Hs & Hp).
  unfold stopSession, andThen, whenSome, finished, thrown, closeContext; cbn.
  destruct mr as [m|], sor as [so|], pr as [pp|]; cbn;
    (destruct ir as [i|]; cbn; [rewrite Hi; cbn|]);
    (destruct ar as [o|]; cbn;
     [destruct Ho as [Ho Hne];
      try (rewrite list_lookup_insert_ne by congruence); rewrite Ho; cbn|]);
    repeat split;
    try (apply list_lookup_insert_eq; assumption);
    try (rewrite list_lookup_insert_ne by congruence;
         apply list_lookup_insert_eq; eapply lookup_lt_Some; eassumption);
    try (apply list_lookup_insert_eq; eapply lookup_lt_Some; eassumption);
    try (rewrite list_lookup_alter_eq;
         destruct (lookup_lt_is_Some_2 procs pp Hp) as [x ->]; reflexivity);
    try (apply list_lookup_insert_eq; rewrite length_insert;
         eapply lookup_lt_Some; eassumption).
Qed.

Lemma stopSession_idempotent_witness :
  let a := run initial [EStart None; EOpen 0;
                        EMessage 0 (mkMessage (Some (lit "practice")) false None)] in
  stopSession (fst (stopSession a)) = (fst (stopSession a), None).
Proof.
  intros a. apply (stopSession_idempotent a). vm_compute. reflexivity.
Defined.

End Stop.

(** ** Sessions along a trace *)

Section SessionTrace.

Ltac open_state a :=
  destruct a as [u r p]; destruct r as [sr ar ir mr pr sor cc tt];
  destruct p as [ctxs strs srcs procs sess pl].

Lemma step_sessions a e :
  sessions (env (step a e)) =
  match e with
  | EStart None =>
      sessions (env a)
      ++ [mkSession (length (contexts (env a))) (S (length (contexts (env a))))
            (length (streams (env a))) false [] []]
  | EFulfil sid => alter fulfilled sid (sessions (env a))
  | EAudio pid inputData =>
      match delivers pid a, createBlob inputData with
      | Some prc, Ok blob => alter (sendOrWait blob) (p_session prc) (sessions (env a))
      | _, _ => sessions (env a)
      end
  | _ => sessions (env a)
  end.
Proof.
  destruct e as [gum| |sid|sid m|sid|sid|sid|pid inp]; unfold step; cbn [react fst].
  - unfold startSession. destruct gum; reflexivity.
  - apply stopSession_frame.
  - unfold onopen. destruct (sessions (env a) !! sid); reflexivity.
  - apply onmessage_sessions.
  - unfold onclose. destruct (sessions (env a) !! sid); reflexivity.
  - unfold onerror. destruct (sessions (env a) !! sid); reflexivity.
  - reflexivity.
  - unfold onaudioprocess. destruct (delivers pid a) as [prc|]; [|reflexivity].
    destruct (createBlob inp); reflexivity.
Qed.

(** A processor of the new state is one of the old state, with the same
    session, or the one the open callback of its session has just made. *)
Lemma step_processors a e pid prc :
  processors (env (step a e)) !! pid = Some prc ->
  (exists prc0, processors (env a) !! pid = Some prc0
                /\ p_session prc0 = p_session prc)
  \/ (e = EOpen (p_session prc) /\ is_Some (sessions (env a) !! p_session prc)).
Proof.
  destruct e as [gum| |sid|sid m|sid|sid|sid|pid' inp]; unfold step; cbn [react fst].
  - unfold startSession. destruct gum; cbn; eauto.
  - open_state a.
    unfold stopSession, andThen, whenSome, finished, thrown, closeContext; cbn.
    assert (Halt : forall n,
              alter (fun p => mkProcessor (p_session p) (p_ctx p) false) n procs !! pid
              = Some prc ->
              exists prc0, procs !! pid = Some prc0 /\ p_session prc0 = p_session prc).
    { intros n. rewrite list_lookup_alter. destruct (decide (n = pid)) as [->|Hne].
      - destruct (procs !! pid) as [x|]; cbn; [|discriminate].
        intros [= <-]. eauto.
      - eauto. }
    destruct mr as [m|], sor as [so|], pr as [pp|]; cbn;
      destruct ir as [i|]; cbn;
      repeat match goal with
        | |- context [?l !! ?k ≫= _] => fail
        | |- context [match ?l !! ?k with _ => _ end] => destruct (l !! k) as [[|]|]; cbn
        end;
      try (destruct ar as [o|]; cbn;
           repeat match goal with
             | |- context [match ?l !! ?k with _ => _ end] =>
                 destruct (l !! k) as [[|]|]; cbn
             end);
      intros H; left; eauto.
  - unfold onopen. destruct (sessions (env a) !! sid) as [ses|] eqn:Hs; [|eauto].
    cbn. rewrite list_lookup_alter.
    destruct (decide (length (processors (env a)) = pid)) as [<-|Hne].
    + rewrite lookup_app_r, Nat.sub_diag by lia. cbn. intros [= <-]. cbn. right. eauto.
    + intros H. apply lookup_app_Some in H as [H|[Hge H]]; [eauto|].
      destruct (pid - length (processors (env a))) as [|k] eqn:Hk; [lia|].
      destruct k; discriminate.
  - unfold onmessage, handleAudio. destruct (sessions (env a) !! sid); [|eauto].
    destruct (inputTranscription m), (turnComplete m), (audioData m) as [[|c d]|];
      cbn; eauto;
      match goal with |- context [rbind ?x ?k] => destruct (rbind x k) end; cbn; eauto.
  - unfold onclose. destruct (sessions (env a) !! sid); eauto.
  - unfold onerror. destruct (sessions (env a) !! sid); eauto.
  - cbn. eauto.
  - unfold onaudioprocess. destruct (delivers pid' a) as [q|]; [|eauto].
    destruct (createBlob inp); cbn; eauto.
Qed.

Lemma sessions_length_step a e :
  length (sessions (env a)) <= length (sessions (env (step a e))).
Proof.
  rewrite step_sessions.
  destruct e as [[msg|]| |sid|sid m|sid|sid|sid|pid inp];
    rewrite ?length_app, ?length_alter; try lia.
  destruct (delivers pid a), (createBlob inp); rewrite ?length_alter; lia.
Qed.

Lemma capturedAlong_snoc evs : forall a sid e,
  capturedAlong a sid (evs ++ [e])
  = capturedAlong a sid evs ++ captured (run a evs) sid e.
Proof.
  induction evs as [|e0 evs IH]; intros a sid e; cbn [app capturedAlong run foldl].
  - rewrite app_nil_r. reflexivity.
  - rewrite IH, app_assoc. reflexivity.
Qed.

Lemma opened_snoc sid evs e :
  opened sid (evs ++ [e])
  = opened sid evs || match e with EOpen s => s =? sid | _ => false end.
Proof. unfold opened. rewrite existsb_app. cbn. rewrite orb_false_r. reflexivity. Qed.

Lemma delivers_processor pid a prc :
  delivers pid a = Some prc -> processors (env a) !! pid = Some prc.
Proof.
  unfold delivers. destruct (processors (env a) !! pid) as [q|]; [|discriminate].
  destruct (p_connected q && _); [|discriminate]. congruence.
Qed.

(** An event captures nothing for a session, or it is the audio callback of
    a delivering processor of that session. *)
Lemma captured_cases a sid e :
  captured a sid e = []
  \/ exists pid inp prc blob,
       e = EAudio pid inp /\ delivers pid a = Some prc /\ p_session prc = sid
       /\ createBlob inp = Ok blob /\ captured a sid e = [blob].
Proof.
  destruct e as [gum| |s|s m|s|s|s|pid inp]; cbn; auto.
  destruct (delivers pid a) as [prc|] eqn:Hd; [|auto].
  destruct (p_session prc =? sid) eqn:Hs; [|auto].
  apply Nat.eqb_eq in Hs.
  destruct (createBlob inp) as [blob|] eqn:Hb; [|auto].
  right. exists pid, inp, prc, blob. auto.
Qed.

Lemma mediaOf_sends l : concat (map mediaOf (map SendRealtimeInput l)) = l.
Proof. induction l as [|b l IH]; cbn; congruence. Qed.

Lemma handed_fulfilled ses :
  settled ses -> handed (fulfilled ses) = handed ses /\ settled (fulfilled ses).
Proof.
  unfold settled, fulfilled, handed. destruct (s_resolved ses) eqn:Hr.
  - rewrite Hr. auto.
  - intros ->. cbn. rewrite mediaOf_sends, app_nil_r. auto.
Qed.

Lemma handed_sendOrWait blob ses :
  settled ses ->
  handed (sendOrWait blob ses) = handed ses ++ [blob] /\ settled (sendOrWait blob ses).
Proof.
  unfold settled, sendOrWait, handed. destruct (s_resolved ses) eqn:Hr; cbn.
  - intros ->. rewrite map_app, concat_app, !app_nil_r. cbn. auto.
  - intros ->. cbn. auto.
Qed.

Lemma traceInvariant_initial : traceInvariant [] initial.
Proof. repeat split; intros; try discriminate; reflexivity. Qed.

Lemma traceInvariant_step evs e :
  traceInvariant evs (run initial evs) ->
  traceInvariant (evs ++ [e]) (step (run initial evs) e).
Proof.
  set (a := run initial evs). intros (K1 & K2 & K3 & K4).
  assert (Hcap : forall sid prc pid,
            delivers pid a = Some prc -> p_session prc = sid ->
            sid < length (sessions (env a)) /\ opened sid evs = true).
  { intros sid prc pid Hd <-. apply (K2 pid), delivers_processor, Hd. }
  split; [|split; [|split]].
  - intros sid ses' Hs'. rewrite capturedAlong_snoc. fold a.
    rewrite step_sessions in Hs'.
    assert (Hsame : sessions (env a) !! sid = Some ses' -> captured a sid e = [] ->
                    handed ses' = capturedAlong initial sid evs ++ captured a sid e
                    /\ settled ses').
    { intros Hs Hc. rewrite Hc, app_nil_r. apply K1, Hs. }
    destruct e as [[msg|]| |s|s m|s|s|s|pid inp]; try (apply Hsame; [exact Hs'|reflexivity]).
    + apply lookup_app_Some in Hs' as [Hs'|[Hge Hs']]; [apply Hsame; [exact Hs'|reflexivity]|].
      destruct (sid - length (sessions (env a))) as [|k]; [|destruct k; discriminate].
      injection Hs' as <-. cbn [captured]. rewrite app_nil_r, (K3 sid Hge).
      split; reflexivity.
    + cbn [captured]. rewrite app_nil_r.
      rewrite list_lookup_alter in Hs'. destruct (decide (s = sid)) as [->|Hne].
      * destruct (sessions (env a) !! sid) as [ses|] eqn:Hs; [|discriminate].
        injection Hs' as <-. destruct (K1 sid ses Hs) as [Hh Hset].
        destruct (handed_fulfilled ses Hset) as [-> Hset']. auto.
      * apply K1, Hs'.
    + cbn [captured].
      destruct (delivers pid a) as [prc|] eqn:Hd; [|rewrite app_nil_r; apply K1, Hs'].
      destruct (createBlob inp) as [blob|] eqn:Hb.
      2:{ destruct (p_session prc =? sid); rewrite app_nil_r; apply K1, Hs'. }
      rewrite list_lookup_alter in Hs'. destruct (decide (p_session prc = sid)) as [Heq|Hne].
      * rewrite Heq, Nat.eqb_refl. rewrite Heq in Hs'.
        destruct (sessions (env a) !! sid) as [ses|] eqn:Hs; [|discriminate].
        injection Hs' as <-. destruct (K1 sid ses Hs) as [Hh Hset].
        destruct (handed_sendOrWait blob ses Hset) as [-> Hset']. rewrite Hh. auto.
      * apply Nat.eqb_neq in Hne. rewrite Hne, app_nil_r. apply K1, Hs'.
  - intros pid prc Hp. pose proof (sessions_length_step a e) as Hlen.
    rewrite opened_snoc.
    apply step_processors in Hp as [(prc0 & Hp0 & Heq)|[-> Hs]].
    + destruct (K2 pid prc0 Hp0) as [Hlt Ho]. rewrite <- Heq, Ho. split; [lia|reflexivity].
    + apply lookup_lt_is_Some in Hs. rewrite Nat.eqb_refl, orb_true_r. split; [lia|reflexivity].
  - intros sid Hge. pose proof (sessions_length_step a e) as Hlen.
    rewrite capturedAlong_snoc. fold a. rewrite K3 by lia.
    destruct (captured_cases a sid e) as [->|(pid & inp & prc & blob & _ & Hd & Hs & _)];
      [reflexivity|].
    destruct (Hcap sid prc pid Hd Hs). lia.
  - intros sid Ho. rewrite opened_snoc in Ho. apply orb_false_iff in Ho as [Ho _].
    rewrite capturedAlong_snoc. fold a. rewrite (K4 sid Ho).
    destruct (captured_cases a sid e) as [->|(pid & inp & prc & blob & _ & Hd & Hs & _)];
      [reflexivity|].
    destruct (Hcap sid prc pid Hd Hs). congruence.
Qed.

Lemma traceInvariant_run evs : traceInvariant evs (run initial evs).
Proof.
  induction evs as [|e evs IH] using rev_ind; [apply traceInvariant_initial|].
  rewrite run_snoc. apply traceInvariant_step, IH.
Qed.

Lemma forallb_alter {A} (P : A -> bool) (f : A -> A) l : forall i,
  (forall x, P x = true -> P (f x) = true) ->
  forallb P l = true -> forallb P (alter f i l) = true.
Proof.
  induction l as [|x l IH]; intros i Hf Hl; [reflexivity|].
  cbn in Hl. apply andb_true_iff in Hl as [Hx Hl].
  destruct i as [|i]; cbn; apply andb_true_iff; auto.
Qed.

Lemma neverClosed_step a e : neverClosed a = true -> neverClosed (step a e) = true.
Proof.
  unfold neverClosed. rewrite step_sessions. intros H.
  assert (Hs : forall blob ses, forallb isSend (s_calls ses) = true ->
                 forallb isSend (s_calls (sendOrWait blob ses)) = true).
  { intros blob ses Hc. unfold sendOrWait. destruct (s_resolved ses); cbn; [|exact Hc].
    rewrite forallb_app, Hc. reflexivity. }
  assert (Hf : forall ses, forallb isSend (s_calls ses) = true ->
                 forallb isSend (s_calls (fulfilled ses)) = true).
  { intros ses Hc. unfold fulfilled. destruct (s_resolved ses); cbn; [exact Hc|].
    rewrite forallb_app, Hc. cbn. apply forallb_forall.
    intros c Hin. apply in_map_iff in Hin as (b & <- & _). reflexivity. }
  destruct e as [[msg|]| |sid|sid m|sid|sid|sid|pid inp]; auto.
  - rewrite forallb_app, H. reflexivity.
  - apply forallb_alter; auto.
  - destruct (delivers pid a), (createBlob inp); auto. apply forallb_alter; auto.
Qed.

Lemma neverClosed_run evs : forall a, neverClosed a = true -> neverClosed (run a evs) = true.
Proof.
  induction evs as [|e evs IH]; intros a Ha; [exact Ha|].
  apply IH, neverClosed_step, Ha.
Qed.

Lemma sends_of_calls calls :
  forallb isSend calls = true ->
  map SendRealtimeInput (concat (map mediaOf calls)) = calls.
Proof.
  induction calls as [|c calls IH]; [reflexivity|].
  cbn. intros H. apply andb_true_iff in H as [Hc H].
  destruct c; [|discriminate]. cbn. rewrite IH by exact H. reflexivity.
Qed.

(** C7, as amended.  For a session of a reachable state: the calls made on
    it, followed by the sends still waiting for its promise, are the sends
    of the blobs its processors have captured, one for each frame and in the
    order of capture; nothing else is called and no frame is dropped.  While
    the promise is not fulfilled nothing has been sent, once it is
    fulfilled nothing waits.  As long as the open callback of the session
    has not run, nothing has been sent and nothing waits. *)
Theorem frames_reach_session (evs : list Event) (sid : nat) (ses : Session) :
  sessions (env (run initial evs)) !! sid = Some ses ->
  s_calls ses ++ map SendRealtimeInput (s_pending ses)
  = map SendRealtimeInput (capturedAlong initial sid evs)
  /\ (if s_resolved ses then s_pending ses = [] else s_calls ses = [])
  /\ (if opened sid evs then True else s_calls ses = [] /\ s_pending ses = []).
Proof.
  intros Hs.
  destruct (traceInvariant_run evs) as (K1 & _ & _ & K4).
  destruct (K1 sid ses Hs) as [Hh Hset].
  assert (Hc : forallb isSend (s_calls ses) = true).
  { pose proof (neverClosed_run evs initial eq_refl) as Hn.
    unfold neverClosed in Hn. rewrite forallb_forall in Hn.
    apply Hn. apply list_elem_of_In, list_elem_of_lookup. eauto. }
  assert (Hall : s_calls ses ++ map SendRealtimeInput (s_pending ses)
                 = map SendRealtimeInput (capturedAlong initial sid evs)).
  { rewrite <- Hh. unfold handed. rewrite map_app, sends_of_calls by exact Hc. reflexivity. }
  split; [exact Hall|]. split; [exact Hset|].
  destruct (opened sid evs) eqn:Ho; [exact I|].
  rewrite (K4 sid Ho) in Hall. cbn in Hall.
  apply app_eq_nil in Hall as [H1 H2]. split; [exact H1|].
  destruct (s_pending ses); [reflexivity|discriminate].
Qed.

(** A frame captured before the promise is fulfilled waits and is sent at
    the fulfilment, before the frame captured after it. *)
Lemma frames_reach_session_witness :
  s_calls <$> sessions (env (run initial
      [EStart None; EOpen 0; EAudio 0 [Num (1 # 2)]; EFulfil 0; EAudio 0 [Num (-1)]])) !! 0
  = Some [SendRealtimeInput (mkBlob (lit "AEA=") (lit "audio/pcm;rate=16000"));
          SendRealtimeInput (mkBlob (lit "AIA=") (lit "audio/pcm;rate=16000"))].
Proof.
  destruct (sessions (env (run initial
      [EStart None; EOpen 0; EAudio 0 [Num (1 # 2)]; EFulfil 0; EAudio 0 [Num (-1)]])) !! 0)
    as [ses|] eqn:Hs; [|vm_compute in Hs; discriminate].
  destruct (frames_reach_session _ 0 ses Hs) as (Hall & Hset & _).
  assert (Hr : s_resolved ses = true).
  { vm_compute in Hs. injection Hs as <-. reflexivity. }
  rewrite Hr in Hset. rewrite Hset, app_nil_r in Hall.
  cbn [fmap option_fmap option_map]. rewrite Hall. vm_compute. reflexivity.
Defined.

(** C7, as stated, fails.  After the transport error the application is
    not recording and shows the error, yet the processor is still attached:
    its next frame is handed to [sendRealtimeInput], not dropped, and no
    signal is raised.  And a frame captured before the promise is fulfilled
    is kept waiting, not dropped. *)
Lemma frame_after_error_is_sent :
  let a := run initial [EStart None; EOpen 0; EFulfil 0; EError 0] in
  let b := run initial [EStart None; EOpen 0] in
  let blob := mkBlob (lit "AEA=") (lit "audio/pcm;rate=16000") in
  isRecording (ui a) = false
  /\ error (ui a) = Some (lit "Connection error detected.")
  /\ s_calls <$> sessions (env a) !! 0 = Some []
  /\ snd (react (EAudio 0 [Num (1 # 2)]) a) = None
  /\ s_calls <$> sessions (env (step a (EAudio 0 [Num (1 # 2)]))) !! 0
     = Some [SendRealtimeInput blob]
  /\ s_pending <$> sessions (env (step b (EAudio 0 [Num (1 # 2)]))) !! 0 = Some [blob].
Proof. vm_compute. repeat split. Qed.

(** C6, at the trace start, open, fulfil, error.  [onerror] shows the
    message and clears [isRecording], and nothing else, in any state; so
    after the error the refs still hold the stream, the nodes and the
    contexts, the tracks are live, the contexts are not closed, the
    processor still delivers audio: nothing that [stopSession] releases has
    been released. *)
Theorem transport_error_keeps_resources :
  let a := run initial [EStart None; EOpen 0; EFulfil 0] in
  let a' := step a (EError 0) in
  (forall sid s, refs (onerror sid s) = refs s /\ env (onerror sid s) = env s)
  /\ isRecording (ui a') = false
  /\ error (ui a') = Some (lit "Connection error detected.")
  /\ mediaStreamRef (refs a') = Some 0 /\ streams (env a') = [true]
  /\ inputAudioContextRef (refs a') = Some 0 /\ audioContextRef (refs a') = Some 1
  /\ contexts (env a') = [true; true]
  /\ sourceRef (refs a') = Some 0 /\ sources (env a') = [true]
  /\ processorRef (refs a') = Some 0
  /\ delivers 0 a' = Some (mkProcessor 0 0 true)
  /\ ~ released a a'
  /\ released a (fst (stopSession a)).
Proof.
  split.
  { intros sid s. unfold onerror. destruct (sessions (env s) !! sid); auto. }
  vm_compute. repeat split; try reflexivity.
  intros (H & _). discriminate.
Qed.

(** C9.  From every reachable state [stopSession] runs to its end.  It
    releases the local resources (the tracks are stopped, the two nodes,
    when both are held, disconnected, the two contexts closed) and leaves
    no ref to them; it commits the turn buffer.  The session ref and the
    sessions are as before: no call is made on any session.  And along no
    trace at all is a session closed by a call: the only calls are
    [sendRealtimeInput]. *)
Theorem stopSession_keeps_session (evs : list Event) :
  let a := run initial evs in
  let a' := fst (stopSession a) in
  snd (stopSession a) = None
  /\ released a a' /\ localRefsNull a'
  /\ committedCountRef (refs a')
     = committedCountRef (refs a) + countPracticeInText (currentTurnTextRef (refs a))
  /\ currentTurnTextRef (refs a') = []
  /\ sessionRef (refs a') = sessionRef (refs a)
  /\ sessions (env a') = sessions (env a)
  /\ neverClosed a' = true
  /\ (forall evs', neverClosed (run a' evs') = true).
Proof.
  intros a a'.
  assert (Hv : refsValid a) by apply (refsValid_run evs initial refsValid_initial).
  destruct (stopSession_completes a Hv) as [Hdone Hnull].
  destruct (stopSession_frame a) as (Hsr & Hss & _).
  pose proof (stopSession_counters a) as [Hc _]. rewrite Hdone in Hc.
  assert (Hn : neverClosed a' = true).
  { unfold neverClosed, a'. rewrite Hss. apply (neverClosed_run evs initial eq_refl). }
  split; [exact Hdone|]. split; [apply stopSession_releases, Hv|].
  split; [exact Hnull|]. split; [apply Hc|]. split; [apply Hc|].
  split; [exact Hsr|]. split; [exact Hss|]. split; [exact Hn|].
  intros evs'. apply neverClosed_run, Hn.
Qed.

End SessionTrace.


(** * Further properties of the code *)

(** ** The codec *)

Section CodecMore.

Local Ltac Zify.zify_post_hook ::= Z.to_euclidean_division_equations.

Lemma encodeBytes_length bs :
  length (Base64.encodeBytes bs) = 4 * ((length bs + 2) / 3).
Proof.
  induction bs as [|a|a b|a b c l IH] using list_ind3; try reflexivity.
  cbn [Base64.encodeBytes app length]. rewrite IH.
  replace (S (S (S (length l))) + 2) with (1 * 3 + (length l + 2)) by lia.
  rewrite Nat.div_add_l by lia. lia.
Qed.

(** X1.  [encode] never fails on the elements of a [Uint8Array]; it writes
    four characters for every three bytes begun, and [decode] gives the bytes
    back. *)
Theorem encode_decode_bytes (bytes : list byte) :
  Forall isByte bytes ->
  exists d, encode bytes = Ok d
            /\ length d = 4 * ((length bytes + 2) / 3)
            /\ decode d = Ok bytes.
Proof.
  intros Hb. exists (Base64.encodeBytes bytes).
  pose proof (encode_bytes bytes Hb) as He.
  split; [exact He|]. split; [apply encodeBytes_length|].
  apply (decode_encode bytes _ Hb He).
Qed.

Lemma encode_decode_bytes_witness :
  encode [0; 128; 255; 7]%N = Ok (lit "AID/Bw==")
  /\ decode (lit "AID/Bw==") = Ok [0; 128; 255; 7]%N.
Proof.
  destruct (encode_decode_bytes [0; 128; 255; 7]%N) as (d & He & _ & Hd).
  - repeat constructor.
  - assert (Heq : d = lit "AID/Bw==").
    { pose proof He as He'. vm_compute in He'. injection He' as <-. reflexivity. }
    rewrite Heq in He, Hd. split; [exact He | exact Hd].
Defined.

(** X2.  When [decodeAudioData] returns, on whatever implementation, the
    byte length is even and holds [frames] whole frames of [numChannels]
    samples, at least one; frame [i] of channel [c] is the 16-bit sample
    number [i * numChannels + c] divided by 32768, and the samples after the
    last whole frame are dropped. *)
Theorem decodeAudioData_deinterleaves
    (data : list byte) (ctx : AudioSupport) (rate : N) (numChannels : nat)
    (buffer : AudioBuffer) :
  let frames := length data / 2 / numChannels in
  decodeAudioData data ctx rate numChannels = Ok buffer ->
  Nat.even (length data) = true
  /\ 0 < frames /\ frames * numChannels <= length (int16Pairs data)
  /\ sampleRate buffer = rate
  /\ channels buffer
     = map (fun c =>
              map (fun i => Num (inject_Z (nth (i * numChannels + c) (int16Pairs data) 0%Z)
                                 / 32768))
                  (seq 0 frames))
           (seq 0 numChannels).
Proof.
  intros frames H.
  pose proof (decodeAudioData_cases data ctx rate numChannels) as Hc. rewrite H in Hc.
  destruct Hc as (He & [Hn0 Hn] & _ & _ & Hr & _).
  pose proof (int16Pairs_length data) as Hlen.
  assert (Hf : 0 < frames).
  { unfold frames. apply Nat.div_str_pos. lia. }
  assert (Hfit : frames * numChannels <= length (int16Pairs data)).
  { rewrite Hlen. unfold frames. rewrite Nat.mul_comm. apply Nat.Div0.mul_div_le. }
  split; [exact He|]. split; [exact Hf|]. split; [exact Hfit|]. split; [exact Hr|].
  rewrite (decodeAudioData_returns _ _ _ _ _ H). reflexivity.
Qed.

Lemma decodeAudioData_deinterleaves_witness :
  decodeAudioData [1; 0; 2; 0; 3; 0; 4; 0; 5; 0]%N requiredSupport 24000 2
  = Ok {| sampleRate := 24000;
          channels := [[Num (1 # 32768); Num (3 # 32768)];
                       [Num (2 # 32768); Num (4 # 32768)]] |}.
Proof.
  destruct (decodeAudioData [1; 0; 2; 0; 3; 0; 4; 0; 5; 0]%N requiredSupport 24000 2)
    as [b|e] eqn:H; [|vm_compute in H; discriminate].
  destruct (decodeAudioData_deinterleaves _ _ _ _ _ H) as (_ & _ & _ & Hr & Hc).
  destruct b as [r c]. cbn in Hr, Hc. subst r c. vm_compute. reflexivity.
Defined.

Lemma requantize_unitSample x : unitSample (requantize x).
Proof.
  unfold requantize, sampleOfInt16, unitSample.
  pose proof (toInt16_isInt16 (fmul x 32768)) as H. unfold isInt16 in H.
  set (z := toInt16 (fmul x 32768)) in *.
  unfold Qle, Qlt, Qdiv, Qmult, Qinv, inject_Z. cbn. lia.
Qed.

(** X3.  The way through [createBlob], [decode] and [decodeAudioData] at one
    channel fails only in [createBuffer]: on the empty frame, at the sample
    rate 0, and at a rate that the implementation does not support.  On a
    frame with a sample in it and at a rate that is supported it never
    fails, whatever the samples are: the buffer has one channel with one
    sample for each sample of the frame, the 16-bit integer of that sample
    divided by 32768, so a finite number of at least -1 and below 1. *)
Theorem roundTrip_any_frame (ctx : AudioSupport) (frame : list float) (rate : N) :
  roundTrip ctx frame rate
  = match frame with
    | [] => Throw NotSupportedError
    | _ :: _ =>
        if (rate =? 0)%N || negb (supports ctx 1 rate) then Throw NotSupportedError
        else
          Ok {| sampleRate := rate;
                channels := [map (fun x => Num (inject_Z (toInt16 (fmul x 32768)) / 32768))
                                 frame] |}
    end
  /\ Forall unitSample
       (map (fun x => Num (inject_Z (toInt16 (fmul x 32768)) / 32768)) frame).
Proof.
  split; [apply roundTrip_requantize|].
  apply Forall_forall. intros y Hy. apply list_elem_of_In, in_map_iff in Hy as (x & <- & _).
  apply (requantize_unitSample x).
Qed.

Lemma requantize_idempotent x : requantize (requantize x) = requantize x.
Proof.
  unfold requantize at 2 3. unfold requantize, sampleOfInt16.
  pose proof (toInt16_isInt16 (fmul x 32768)) as H.
  set (z := toInt16 (fmul x 32768)) in *.
  do 3 f_equal. cbn [fmul toInt16].
  rewrite wrap16_id; unfold truncate, Qdiv, Qmult, Qinv, inject_Z; cbn;
    rewrite Z.mul_1_r, Z.quot_mul by lia; [reflexivity | exact H].
Qed.

(** X4.  Going through the codec a second time changes nothing: the samples
    that come out of one round trip come out of the next one as they are. *)
Theorem roundTrip_idempotent
    (ctx : AudioSupport) (frame out : list float) (rate : N) :
  roundTrip ctx frame rate = Ok {| sampleRate := rate; channels := [out] |} ->
  roundTrip ctx out rate = Ok {| sampleRate := rate; channels := [out] |}.
Proof.
  rewrite !roundTrip_requantize.
  destruct frame as [|x frame]; [discriminate|].
  destruct ((rate =? 0)%N || negb (supports ctx 1 rate)); [discriminate|].
  intros [= <-].
  assert (H : map requantize (map requantize (x :: frame)) = map requantize (x :: frame)).
  { rewrite map_map. apply map_ext. intros y. apply requantize_idempotent. }
  cbn [map] in *. rewrite H. reflexivity.
Qed.

Lemma roundTrip_idempotent_witness :
  roundTrip requiredSupport
            [Num (-32768 # 32768); Num (10922 # 32768); Num (0 # 32768)] 16000
  = Ok {| sampleRate := 16000;
          channels := [[Num (-32768 # 32768); Num (10922 # 32768); Num (0 # 32768)]] |}.
Proof.
  apply (roundTrip_idempotent requiredSupport [Num 1; Num (1 # 3); NaN]).
  vm_compute. reflexivity.
Defined.

(** X5.  A sample from 1.0 up to 2.0 is not held at the top of the range:
    its product with 32768, truncated, is stored less 65536, a negative
    integer. *)
Theorem full_scale_and_above_wraps (q : Q) :
  (1 <= q)%Q -> (q < 2)%Q ->
  createBlob_int16 [Num q] = [(truncate (q * 32768) - 65536)%Z]
  /\ (-32768 <= truncate (q * 32768) - 65536 < 0)%Z.
Proof.
  intros Hlo Hhi.
  assert (Ht : (32768 <= truncate (q * 32768) <= 65535)%Z).
  { destruct q as [n d]. unfold truncate, Qle, Qlt in *. cbn in *.
    rewrite Pos.mul_1_r. nia. }
  split; [|lia].
  unfold createBlob_int16. cbn [map fmul toInt16]. f_equal.
  unfold wrap16. cbv zeta.
  destruct (truncate (q * 32768) mod 65536 <? 32768)%Z eqn:H;
    [apply Z.ltb_lt in H | apply Z.ltb_ge in H]; lia.
Qed.

Lemma full_scale_and_above_wraps_witness :
  createBlob_int16 [Num (3 # 2)] = [(-16384)%Z].
Proof.
  destruct (full_scale_and_above_wraps (3 # 2)) as [H _];
    [discriminate | reflexivity | exact H].
Defined.

End CodecMore.

(** ** The count and the places where text is cut *)

Section CountMore.

Import Regex WholeWord.

Lemma startsWith_app_Some pat : forall s rest t,
  startsWith pat s = Some rest -> startsWith pat (s ++ t) = Some (rest ++ t).
Proof.
  induction pat as [|p pat IH]; intros s rest t H.
  - cbn in H. injection H as <-. reflexivity.
  - destruct s as [|c s]; cbn in *; [discriminate|].
    destruct (sameLetter p c); [apply IH, H | discriminate].
Qed.

(** A match that needs the appended text runs over all of the first text and
    into the second. *)
Lemma startsWith_app_None pat : forall s t r,
  forallb isLower pat = true ->
  startsWith pat s = None -> startsWith pat (s ++ t) = Some r ->
  forallb isWordChar s = true /\ isWordAt (head t) = true.
Proof.
  induction pat as [|p pat IH]; intros s t r Hp Hs Hst.
  - destruct s; discriminate.
  - cbn in Hp. apply andb_true_iff in Hp as [Hp1 Hp2].
    destruct s as [|c s].
    + destruct t as [|c t]; cbn in Hst; [discriminate|].
      destruct (sameLetter p c) eqn:Hc; [|discriminate].
      split; [reflexivity|]. apply (sameLetter_word p c Hp1 Hc).
    + cbn in Hs, Hst. destruct (sameLetter p c) eqn:Hc; [|discriminate].
      destruct (IH s t r Hp2 Hs Hst) as [Hw Ht].
      cbn. rewrite (sameLetter_word p c Hp1 Hc), Hw. auto.
Qed.

Lemma word_last s :
  s <> [] -> forallb isWordChar s = true -> isWordAt (last s) = true.
Proof.
  intros Hne Hw. destruct (last s) as [x|] eqn:Hl; [|apply last_None in Hl; contradiction].
  rewrite forallb_forall in Hw. apply Hw, list_elem_of_In, last_Some_elem_of, Hl.
Qed.

Lemma occursHere_app b s t :
  s <> [] -> isWordAt (last s) && isWordAt (head t) = false ->
  occursHere b (s ++ t) = occursHere b s.
Proof.
  intros Hne Hcut. unfold occursHere. change (lit "practice") with keyword.
  destruct (startsWith keyword s) as [rest|] eqn:Hs.
  - rewrite (startsWith_app_Some _ _ _ t Hs).
    destruct rest as [|x rest]; [|reflexivity].
    destruct (startsWith_split _ _ _ keyword_lower Hs) as (pre & -> & _ & Hw).
    rewrite app_nil_r in *. rewrite (word_last pre Hne Hw) in Hcut.
    cbn in Hcut. cbn [app]. unfold nonWordOrEdge. rewrite Hcut. reflexivity.
  - destruct (startsWith keyword (s ++ t)) as [r|] eqn:Hst; [|reflexivity].
    destruct (startsWith_app_None _ _ _ _ keyword_lower Hs Hst) as [Hw Ht].
    rewrite (word_last s Hne Hw), Ht in Hcut. discriminate.
Qed.

Lemma occursHere_nonword b c t : isWordChar c = false -> occursHere b (c :: t) = false.
Proof.
  intros Hc. unfold occursHere. change (lit "practice") with keyword.
  destruct (startsWith keyword (c :: t)) as [rest|] eqn:Hs; [|apply andb_false_r].
  destruct (startsWith_split _ _ _ keyword_lower Hs) as (pre & Heq & Hlen & Hw).
  destruct pre as [|c' pre]; [discriminate|]. injection Heq as <- _.
  cbn in Hw. rewrite Hc in Hw. discriminate.
Qed.

Lemma occurrencesFrom_before b1 b2 t :
  isWordAt b1 && isWordAt (head t) = false ->
  isWordAt b2 && isWordAt (head t) = false ->
  occurrencesFrom b1 t = occurrencesFrom b2 t.
Proof.
  destruct t as [|c t]; [reflexivity|]. cbn [head isWordAt occurrencesFrom].
  intros H1 H2. f_equal.
  destruct (isWordChar c) eqn:Hc.
  - rewrite andb_true_r in H1, H2. unfold occursHere, nonWordOrEdge. rewrite H1, H2.
    reflexivity.
  - rewrite !occursHere_nonword by exact Hc. reflexivity.
Qed.

Lemma occurrencesFrom_app s : forall b t,
  isWordAt (last s) && isWordAt (head t) = false ->
  occurrencesFrom b (s ++ t)
  = occurrencesFrom b s
    + occurrencesFrom (match last s with Some c => Some c | None => b end) t.
Proof.
  induction s as [|c s IH]; intros b t Hcut; [reflexivity|].
  change ((c :: s) ++ t) with (c :: (s ++ t)). cbn [occurrencesFrom].
  change (c :: (s ++ t)) with ((c :: s) ++ t).
  rewrite (occursHere_app b (c :: s) t) by (try discriminate; exact Hcut).
  rewrite last_cons in *.
  rewrite IH by (destruct (last s); [exact Hcut | reflexivity]).
  destruct (last s); lia.
Qed.

Lemma count_app s t :
  isWordAt (last s) && isWordAt (head t) = false ->
  countPracticeInText (s ++ t) = countPracticeInText s + countPracticeInText t.
Proof.
  intros Hcut. rewrite !countPracticeInText_occurrences. unfold occurrences.
  rewrite occurrencesFrom_app by exact Hcut. f_equal.
  apply occurrencesFrom_before; [|reflexivity].
  destruct (last s); [exact Hcut | reflexivity].
Qed.

(** X6.  Where a text is cut between two code units that are not both word
    characters (or at one of its ends), the count of the whole is the sum of
    the counts of the two parts. *)
Theorem count_splits_outside_words (s t : jsstring) :
  isWordAt (last s) && isWordAt (head t) = false ->
  countPracticeInText (s ++ t) = countPracticeInText s + countPracticeInText t.
Proof. apply count_app. Qed.

Lemma count_splits_outside_words_witness :
  countPracticeInText (lit "We practice." ++ lit " Practice daily") = 1 + 1.
Proof.
  rewrite (count_splits_outside_words (lit "We practice.") (lit " Practice daily"));
    reflexivity.
Defined.

Lemma head_concat_nonword turns :
  Forall (fun t => isWordAt (head t) = false) turns ->
  isWordAt (head (concat turns)) = false.
Proof.
  induction 1 as [|t turns Ht _ IH]; [reflexivity|].
  cbn [concat]. rewrite head_app. destruct (head t); [exact Ht | exact IH].
Qed.

Lemma sumCounts_concat turns :
  Forall (fun t => isWordAt (head t) = false) turns ->
  sumCounts turns = countPracticeInText (concat turns).
Proof.
  induction 1 as [|t turns Ht Hts IH]; [reflexivity|].
  cbn [concat]. rewrite count_app.
  - unfold sumCounts in *. cbn [foldr]. rewrite IH. reflexivity.
  - rewrite (head_concat_nonword turns Hts). apply andb_false_r.
Qed.

(** X7.  When none of the turns closed along a trace begins with a word
    character, the committed count is the count of the keyword in the whole
    text of those turns: the cuts between the turns have lost nothing and
    added nothing. *)
Theorem committed_counts_whole_text (evs : list Event) :
  Forall (fun t => isWordAt (head t) = false) (closedTurns initial evs) ->
  committedCountRef (refs (run initial evs))
  = countPracticeInText (concat (closedTurns initial evs)).
Proof.
  intros H. destruct (run_turns initial evs) as [Hc _].
  rewrite Hc. cbn. apply sumCounts_concat, H.
Qed.

Lemma committed_counts_whole_text_witness :
  committedCountRef (refs (run initial
    [EStart None; EOpen 0;
     EMessage 0 (deltaMessage (lit " I practice")); EMessage 0 turnCompleteMessage;
     EMessage 0 (deltaMessage (lit " and practice")); EStop]))
  = 2.
Proof.
  rewrite committed_counts_whole_text; [reflexivity|].
  vm_compute. repeat constructor.
Defined.

(** The effect of the two kinds of message on the counter, for a session
    that exists. *)
Lemma delta_step a sid text :
  is_Some (sessions (env a) !! sid) ->
  let a' := step a (EMessage sid (deltaMessage text)) in
  committedCountRef (refs a') = committedCountRef (refs a)
  /\ currentTurnTextRef (refs a') = currentTurnTextRef (refs a) ++ text
  /\ reportedCount a'
     = committedCountRef (refs a)
       + countPracticeInText (currentTurnTextRef (refs a) ++ text)
  /\ is_Some (sessions (env a') !! sid).
Proof.
  intros Hs a'. unfold a'.
  rewrite step_committed, step_turnBuffer, step_reported, onmessage_sessions.
  destruct Hs as [ses Hs]. cbn [commits deltaOf hasDelta deltaMessage
                                 inputTranscription turnComplete].
  rewrite Hs, andb_false_r, !bool_decide_eq_true_2 by eauto. cbn [andb].
  repeat split; eauto; lia.
Qed.

Lemma turnComplete_step a sid :
  is_Some (sessions (env a) !! sid) ->
  let a' := step a (EMessage sid turnCompleteMessage) in
  committedCountRef (refs a')
  = committedCountRef (refs a) + countPracticeInText (currentTurnTextRef (refs a))
  /\ currentTurnTextRef (refs a') = []
  /\ reportedCount a' = reportedCount a
  /\ is_Some (sessions (env a') !! sid).
Proof.
  intros Hs a'. unfold a'.
  rewrite step_committed, step_turnBuffer, step_reported, onmessage_sessions.
  destruct Hs as [ses Hs]. cbn [commits deltaOf hasDelta turnCompleteMessage
                                 inputTranscription turnComplete].
  rewrite Hs, bool_decide_eq_true_2 by eauto.
  rewrite bool_decide_eq_false_2 by (intros [? ?]; discriminate).
  cbn [andb]. rewrite app_nil_r. repeat split; eauto.
Qed.

Lemma occurrencesFrom_inside_word s : forall b,
  isWordAt b = true -> forallb isWordChar s = true -> occurrencesFrom b s = 0.
Proof.
  induction s as [|c s IH]; intros b Hb Hs; [reflexivity|].
  cbn in Hs. apply andb_true_iff in Hs as [Hc Hs].
  cbn [occurrencesFrom]. unfold occursHere, nonWordOrEdge. rewrite Hb. cbn [negb andb].
  apply IH; assumption.
Qed.

Lemma count_keyword_then_word c :
  isWordChar c = true -> countPracticeInText (keyword ++ [c]) = 0.
Proof.
  intros Hc. rewrite countPracticeInText_occurrences. unfold occurrences.
  assert (Hocc : occursHere None (keyword ++ [c]) = false).
  { unfold occursHere. change (lit "practice") with keyword.
    rewrite (startsWith_app_Some keyword keyword [] [c] eq_refl).
    cbn [app head]. unfold nonWordOrEdge at 2. cbn [isWordAt]. rewrite Hc.
    apply andb_false_r. }
  change (keyword ++ [c]) with (112%N :: (lit "ractice" ++ [c])) in *.
  cbn [occurrencesFrom]. rewrite Hocc.
  apply occurrencesFrom_inside_word; [reflexivity|].
  rewrite forallb_app. cbn [forallb]. rewrite Hc. reflexivity.
Qed.

(** X8.  The count on the screen can go down within a turn: when the turn
    buffer does not end in a word character and the next delta is the
    keyword, the count rises by one, and when the delta after that is a word
    character (as in "practice" followed by "d"), the count is back where it
    was. *)
Theorem reported_count_can_drop (evs0 : list Event) (sid : nat) (c : char16) :
  let a := run initial evs0 in
  let a1 := step a (EMessage sid (deltaMessage keyword)) in
  let a2 := step a1 (EMessage sid (deltaMessage [c])) in
  is_Some (sessions (env a) !! sid) ->
  isWordAt (last (currentTurnTextRef (refs a))) = false ->
  isWordChar c = true ->
  reportedCount a1 = reportedCount a + 1
  /\ reportedCount a2 = reportedCount a.
Proof.
  intros a a1 a2 Hs Hlast Hc.
  assert (Hinv : countInvariant a).
  { apply (countInvariant_run initial evs0), countInvariant_initial. }
  unfold countInvariant in Hinv.
  destruct (delta_step a sid keyword Hs) as (Hc1 & Ht1 & Hr1 & Hs1). fold a1 in Hc1, Ht1, Hr1, Hs1.
  destruct (delta_step a1 sid [c] Hs1) as (_ & _ & Hr2 & _). fold a2 in Hr2.
  rewrite Hr2, Hr1, Hc1, Ht1, Hinv, <- app_assoc.
  rewrite (count_app _ keyword), (count_app _ (keyword ++ [c]))
    by (rewrite Hlast; reflexivity).
  rewrite count_keyword_then_word by exact Hc.
  change (countPracticeInText keyword) with 1. lia.
Qed.

Lemma reported_count_can_drop_witness :
  let a := run initial [EStart None; EOpen 0; EMessage 0 (deltaMessage (lit "I "))] in
  let a1 := step a (EMessage 0 (deltaMessage keyword)) in
  let a2 := step a1 (EMessage 0 (deltaMessage [100%N])) in
  reportedCount a1 = reportedCount a + 1 /\ reportedCount a2 = reportedCount a.
Proof.
  apply (reported_count_can_drop
           [EStart None; EOpen 0; EMessage 0 (deltaMessage (lit "I "))] 0 100%N).
  - vm_compute. eauto.
  - vm_compute. reflexivity.
  - vm_compute. reflexivity.
Defined.

Lemma count_keyword_parts k :
  0 < k < 8 ->
  countPracticeInText (take k keyword) = 0
  /\ countPracticeInText (drop k keyword) = 0.
Proof.
  intros Hk.
  destruct k as [|[|[|[|[|[|[|[|k]]]]]]]]; try lia; split; reflexivity.
Qed.

(** X9.  A keyword cut by the end of a turn is never counted: when its first
    [k] letters close one turn and the other letters open the next, neither
    turn counts it, while the same two deltas within one turn count one. *)
Theorem keyword_cut_by_turn_end (evs0 : list Event) (sid k : nat) :
  let a := run initial evs0 in
  let first := deltaMessage (take k keyword) in
  let second := deltaMessage (drop k keyword) in
  let cut := run a [EMessage sid first; EMessage sid turnCompleteMessage;
                    EMessage sid second; EMessage sid turnCompleteMessage] in
  let uncut := run a [EMessage sid first; EMessage sid second;
                      EMessage sid turnCompleteMessage] in
  is_Some (sessions (env a) !! sid) ->
  currentTurnTextRef (refs a) = [] ->
  0 < k < 8 ->
  committedCountRef (refs cut) = committedCountRef (refs a)
  /\ reportedCount cut = committedCountRef (refs a)
  /\ committedCountRef (refs uncut) = committedCountRef (refs a) + 1
  /\ reportedCount uncut = committedCountRef (refs a) + 1.
Proof.
  intros a first second cut uncut Hs Hb Hk.
  destruct (count_keyword_parts k Hk) as [Ht Hd].
  assert (Hkw : take k keyword ++ drop k keyword = keyword) by apply take_drop.
  unfold cut, uncut, run, first, second. cbn [foldl].
  destruct (delta_step a sid (take k keyword) Hs) as (Hc1 & Ht1 & Hr1 & Hs1).
  set (a1 := step a (EMessage sid (deltaMessage (take k keyword)))) in *.
  rewrite Hb in Ht1, Hr1. cbn [app] in Ht1, Hr1.
  (* the turn is completed between the two deltas *)
  destruct (turnComplete_step a1 sid Hs1) as (Hc2 & Ht2 & Hr2 & Hs2).
  set (a2 := step a1 (EMessage sid turnCompleteMessage)) in *.
  destruct (delta_step a2 sid (drop k keyword) Hs2) as (Hc3 & Ht3 & Hr3 & Hs3).
  set (a3 := step a2 (EMessage sid (deltaMessage (drop k keyword)))) in *.
  destruct (turnComplete_step a3 sid Hs3) as (Hc4 & _ & Hr4 & _).
  (* the two deltas in one turn *)
  destruct (delta_step a1 sid (drop k keyword) Hs1) as (Hc2' & Ht2' & Hr2' & Hs2').
  set (b2 := step a1 (EMessage sid (deltaMessage (drop k keyword)))) in *.
  destruct (turnComplete_step b2 sid Hs2') as (Hc3' & _ & Hr3' & _).
  rewrite Ht2 in Ht3, Hr3. cbn [app] in Ht3, Hr3.
  rewrite Ht1 in Hc2, Ht2', Hr2'. rewrite Hkw in Ht2', Hr2'.
  rewrite Ht3 in Hc4. rewrite Ht2' in Hc3'.
  rewrite Ht in Hc2. rewrite Hd in Hc4, Hr3.
  change (countPracticeInText keyword) with 1 in Hc3', Hr2'.
  repeat split; lia.
Qed.

Lemma keyword_cut_by_turn_end_witness :
  let a := run initial [EStart None; EOpen 0] in
  reportedCount (run a [EMessage 0 (deltaMessage (take 4 keyword));
                        EMessage 0 turnCompleteMessage;
                        EMessage 0 (deltaMessage (drop 4 keyword));
                        EMessage 0 turnCompleteMessage])
  = committedCountRef (refs a).
Proof.
  apply (keyword_cut_by_turn_end [EStart None; EOpen 0] 0 4).
  - vm_compute. eauto.
  - vm_compute. reflexivity.
  - lia.
Defined.

(** X10.  Without a message nothing moves the tally: whatever starts, stops,
    opens, closes, errors, fulfilments and audio frames happen, the count on
    the screen and the transcript stay as they are, and so does the sum of the
    committed count and the count of the turn buffer (a stop moves the one
    into the other).  Nothing but a page reload resets the count. *)
Theorem tally_moves_only_on_messages (a : App) (evs : list Event) :
  forallb (fun e => negb (isMessage e)) evs = true ->
  reportedCount (run a evs) = reportedCount a
  /\ transcript (ui (run a evs)) = transcript (ui a)
  /\ committedCountRef (refs (run a evs))
     + countPracticeInText (currentTurnTextRef (refs (run a evs)))
     = committedCountRef (refs a) + countPracticeInText (currentTurnTextRef (refs a)).
Proof.
  revert a. induction evs as [|e evs IH]; intros a H; [auto|].
  cbn in H. apply andb_true_iff in H as [He H].
  cbn [run foldl]. fold (run (step a e) evs).
  destruct (IH (step a e) H) as (Hr & Ht & Hc). rewrite Hr, Ht, Hc.
  assert (Hd : hasDelta a e = false) by (destruct e; try reflexivity; discriminate).
  rewrite step_reported, step_transcript, step_committed, step_turnBuffer, Hd.
  rewrite (hasDelta_false _ _ Hd), app_nil_r.
  destruct (commits a e); rewrite ?count_nil; repeat split; lia.
Qed.

Lemma tally_moves_only_on_messages_witness :
  let a := run initial [EStart None; EOpen 0;
                        EMessage 0 (deltaMessage (lit "practice practice"))] in
  reportedCount (run a [EStop; EStart None; EOpen 1; EError 1; EStart (Some []); EStop]) = 2.
Proof.
  intros a.
  destruct (tally_moves_only_on_messages a
              [EStop; EStart None; EOpen 1; EError 1; EStart (Some []); EStop]) as [H _];
    [reflexivity|].
  rewrite H. vm_compute. reflexivity.
Defined.

Lemma matchAll_bound s : forall b k, 8 * matchAll b k s <= length s - k.
Proof.
  induction s as [|c s IH]; intros b k; [cbn; lia|].
  destruct k as [|k]; cbn [matchAll length].
  - destruct (matchHere b (c :: s)) eqn:Hm.
    + rewrite matchHere_occursHere in Hm. unfold occursHere in Hm.
      apply andb_true_iff in Hm as [_ Hm]. change (lit "practice") with keyword in Hm.
      destruct (startsWith keyword (c :: s)) as [rest|] eqn:Hs; [|discriminate].
      destruct (startsWith_split _ _ _ keyword_lower Hs) as (pre & Heq & Hlen & _).
      apply (f_equal (@length _)) in Heq. rewrite length_app, Hlen in Heq.
      cbn [length] in Heq. change (length keyword) with 8 in Heq.
      change (length keyword - 1) with 7.
      pose proof (IH (Some c) 7). lia.
    + pose proof (IH (Some c) 0). lia.
  - pose proof (IH (Some c) k). lia.
Qed.

Lemma count_bound text : 8 * countPracticeInText text <= length text.
Proof.
  unfold countPracticeInText. pose proof (matchAll_bound text None 0). lia.
Qed.

Lemma sumCounts_bound turns : 8 * sumCounts turns <= length (concat turns).
Proof.
  induction turns as [|t turns IH]; [cbn; lia|].
  unfold sumCounts in *. cbn [foldr concat]. rewrite length_app.
  pose proof (count_bound t). lia.
Qed.

(** X18.  An occurrence takes eight code units of its own: eight times the
    count of a text is at most its length, so a text shorter than the keyword
    counts 0, and eight times the count on the screen is at most the length of
    all the transcript text received. *)
Theorem count_is_bounded_by_length (text : jsstring) (evs : list Event) :
  8 * countPracticeInText text <= length text
  /\ 8 * reportedCount (run initial evs) <= length (received initial evs).
Proof.
  split; [apply count_bound|].
  pose proof (countInvariant_run initial evs countInvariant_initial) as Hinv.
  unfold countInvariant in Hinv.
  destruct (run_turns initial evs) as [Hc Ht]. cbn [initial refs committedCountRef
    currentTurnTextRef app] in Hc, Ht.
  rewrite Hinv, Hc, <- Ht, length_app. cbn [Nat.add].
  pose proof (sumCounts_bound (closedTurns initial evs)).
  pose proof (count_bound (currentTurnTextRef (refs (run initial evs)))). lia.
Qed.

End CountMore.

(** ** Audio in a message, once more *)

Section AudioMore.

Local Ltac Zify.zify_post_hook ::= Z.to_euclidean_division_equations.

Lemma decode_isByte d bytes : decode d = Ok bytes -> Forall isByte bytes.
Proof.
  unfold decode. destruct (Base64.atob d) as [b|]; [|discriminate].
  cbn [rbind]. intros [= <-]. apply List.Forall_forall. intros x Hx.
  apply in_map_iff in Hx as (c & <- & _). unfold isByte. lia.
Qed.

Lemma int16Pairs_isInt16 data : Forall isByte data -> Forall isInt16 (int16Pairs data).
Proof.
  revert data. fix IH 1. intros [|lo [|hi rest]] H; [constructor | constructor |].
  inversion H as [|? ? Hlo H']; inversion H' as [|? ? Hhi Hrest]; subst.
  cbn [int16Pairs]. constructor; [|apply IH, Hrest].
  unfold isInt16, int16OfBytes, isByte in *. cbv zeta.
  match goal with |- context [(?u <? 32768)%Z] =>
    destruct (u <? 32768)%Z eqn:Hu; [apply Z.ltb_lt in Hu|apply Z.ltb_ge in Hu] end; lia.
Qed.

Lemma sampleOfInt16_unitSample z : isInt16 z -> unitSample (sampleOfInt16 (Some z)).
Proof.
  unfold isInt16, sampleOfInt16, unitSample, Qle, Qlt, Qdiv, Qmult, Qinv, inject_Z.
  cbn. lia.
Qed.

(** What [decodeAudioData] returns for the bytes of [decode], at the rate
    and the channel count of [onmessage]. *)
Lemma decoded_chunk_playable d bytes buffer :
  decode d = Ok bytes -> decodeAudioData bytes requiredSupport 24000 1 = Ok buffer ->
  playable buffer.
Proof.
  intros Hd Hb.
  pose proof (decodeAudioData_cases bytes requiredSupport 24000 1) as Hc. rewrite Hb in Hc.
  destruct Hc as (He & [_ Hn] & Hr & Hs & _).
  assert (Hne : bytes <> []) by (intros ->; cbn in Hn; lia).
  rewrite (decodeAudioData_mono bytes requiredSupport 24000 He Hne Hr Hs) in Hb.
  injection Hb as <-.
  split; [reflexivity|]. eexists. split; [reflexivity|]. split.
  - intros Hm. apply (f_equal (@length _)) in Hm.
    rewrite length_map, int16Pairs_length in Hm. cbn [length] in Hm. lia.
  - apply List.Forall_forall. intros x Hx. apply in_map_iff in Hx as (z & <- & Hz).
    apply sampleOfInt16_unitSample.
    pose proof (int16Pairs_isInt16 bytes (decode_isByte d bytes Hd)) as Hall.
    rewrite List.Forall_forall in Hall. apply Hall, Hz.
Qed.

(** The two ways [onmessage] can end. *)
Lemma onmessage_cases a sid m :
  let a0 := step a (EMessage sid (withoutAudio m)) in
  react (EMessage sid m) a = (a0, snd (react (EMessage sid m) a))
  \/ exists ses buffer,
       sessions (env a) !! sid = Some ses /\ playable buffer
       /\ react (EMessage sid m) a
          = (set_played (played (env a0) ++ [(s_outputCtx ses, buffer)]) a0, None).
Proof.
  intros a0. unfold a0, step. cbn [react]. unfold onmessage.
  destruct (sessions (env a) !! sid) as [ses|] eqn:Hs; [|left; reflexivity].
  cbn [withoutAudio inputTranscription turnComplete audioData handleAudio fst].
  set (b := if turnComplete m then _ else _).
  unfold handleAudio. destruct (audioData m) as [[|c d]|]; try (left; reflexivity).
  destruct (decode (c :: d)) as [bytes|e] eqn:Hd; cbn [rbind]; [|left; reflexivity].
  destruct (decodeAudioData bytes requiredSupport 24000 1) as [buffer|e] eqn:Hb;
    [|left; reflexivity].
  right. exists ses, buffer. split; [reflexivity|].
  split; [apply (decoded_chunk_playable _ _ _ Hd Hb) | reflexivity].
Qed.

(** X11.  Whatever the audio part of a message is, it cannot harm the rest
    of the message: when [onmessage] ends with an exception (text that is not
    base64, an odd number of bytes, no bytes at all), the state is the one the
    message without its audio leaves; when it ends normally, the state is that
    one, or that one with one more buffer started on the output context of the
    session, a buffer of 24 kHz with one non-empty channel of samples from -1
    to below 1. *)
Theorem audio_part_is_contained (a : App) (sid : nat) (m : LiveServerMessage) :
  let a0 := step a (EMessage sid (withoutAudio m)) in
  match react (EMessage sid m) a with
  | (a', Some _) => a' = a0
  | (a', None) =>
      a' = a0
      \/ exists ses buffer,
           sessions (env a) !! sid = Some ses /\ playable buffer
           /\ a' = set_played (played (env a0) ++ [(s_outputCtx ses, buffer)]) a0
  end.
Proof.
  intros a0. destruct (onmessage_cases a sid m) as [H|(ses & buffer & Hs & Hp & H)];
    fold a0 in H; rewrite H.
  - destruct (snd (react (EMessage sid m) a)); auto.
  - right. eauto.
Qed.

Lemma played_step a e :
  played (env (step a e)) = played (env a)
  \/ exists ctx buffer, playable buffer
                        /\ played (env (step a e)) = played (env a) ++ [(ctx, buffer)].
Proof.
  destruct e as [gum| |sid|sid m|sid|sid|sid|pid inp].
  - left. unfold step, startSession. destruct gum; reflexivity.
  - left. apply stopSession_frame.
  - left. unfold step; cbn [react fst]. unfold onopen.
    destruct (sessions (env a) !! sid); reflexivity.
  - destruct (quiet_message a sid m) as (_ & He & _).
    change (step a (EMessage sid m)) with (fst (react (EMessage sid m) a)).
    destruct (onmessage_cases a sid m) as [H|(ses & buffer & Hs & Hp & H)];
      cbv zeta in H; rewrite H; cbn [fst].
    + left. rewrite He. reflexivity.
    + right. exists (s_outputCtx ses), buffer. split; [exact Hp|].
      cbn. rewrite He. reflexivity.
  - left. unfold step; cbn [react fst]. unfold onclose.
    destruct (sessions (env a) !! sid); reflexivity.
  - left. unfold step; cbn [react fst]. unfold onerror.
    destruct (sessions (env a) !! sid); reflexivity.
  - left. reflexivity.
  - left. unfold step; cbn [react fst]. unfold onaudioprocess.
    destruct (delivers pid a) as [prc|]; [|reflexivity].
    destruct (createBlob inp); reflexivity.
Qed.

Lemma played_run evs : forall a,
  exists more, played (env (run a evs)) = played (env a) ++ more.
Proof.
  induction evs as [|e evs IH]; intros a.
  - exists []. rewrite app_nil_r. reflexivity.
  - destruct (IH (step a e)) as [more Hm].
    change (run a (e :: evs)) with (run (step a e) evs). rewrite Hm.
    destruct (played_step a e) as [->|(ctx & buffer & _ & ->)]; [eauto|].
    rewrite <- app_assoc. eauto.
Qed.

(** X12.  Every buffer the application has ever started is a playable one,
    and buffers are only ever added at the end of the list: what was played
    stays played, in its order. *)
Theorem played_buffers_are_playable (evs evs' : list Event) :
  Forall (fun p => playable (snd p)) (played (env (run initial evs)))
  /\ exists more,
       played (env (run initial (evs ++ evs'))) = played (env (run initial evs)) ++ more.
Proof.
  split.
  - induction evs as [|e evs IH] using rev_ind; [constructor|].
    rewrite run_snoc.
    destruct (played_step (run initial evs) e) as [->|(ctx & buffer & Hp & ->)];
      [exact IH|].
    apply Forall_app. split; [exact IH|]. constructor; [exact Hp|constructor].
  - replace (run initial (evs ++ evs')) with (run (run initial evs) evs')
      by (unfold run; rewrite foldl_app; reflexivity).
    apply played_run.
Qed.

End AudioMore.

(** ** What is released, and what never is *)

Section ResourcesMore.

Ltac open_state a :=
  destruct a as [u r p]; destruct r as [sr ar ir mr pr sor cc tt];
  destruct p as [ctxs strs srcs procs sess pl].

Ltac stop_cases a :=
  destruct a as [u r p]; destruct r as [sr ar ir mr pr sor cc tt];
  destruct p as [ctxs strs srcs procs sess pl];
  unfold stopSession, andThen, whenSome, finished, thrown, closeContext; cbn;
  destruct mr as [m'|]; cbn;
  destruct sor as [so|]; cbn; try (destruct pr as [pp|]; cbn);
  try (destruct ir as [i|]; cbn;
       [match goal with |- context [?l !! i] => destruct (l !! i) as [[|]|] eqn:? end; cbn|]);
  try (destruct ar as [o|]; cbn;
       [match goal with |- context [?l !! o] => destruct (l !! o) as [[|]|] eqn:? end; cbn|]).

Lemma insert_false_closed (l : list bool) i c :
  l !! c = Some false -> <[i := false]> l !! c = Some false.
Proof. intros H. rewrite list_lookup_insert. case_decide; auto. Qed.

Lemma insert_elsewhere (l : list bool) i c x :
  i <> c -> l !! c = Some true -> <[i := x]> l !! c = Some true.
Proof. intros Hne H. rewrite list_lookup_insert_ne by exact Hne. exact H. Qed.

(** [stopSession] and the contexts: a closed one stays closed, an open one
    that neither context ref names stays open; the context refs are cleared or
    left. *)
Lemma stopSession_contexts a c :
  (contexts (env a) !! c = Some false ->
   contexts (env (fst (stopSession a))) !! c = Some false)
  /\ (contexts (env a) !! c = Some true ->
      inputAudioContextRef (refs a) <> Some c -> audioContextRef (refs a) <> Some c ->
      contexts (env (fst (stopSession a))) !! c = Some true)
  /\ (inputAudioContextRef (refs (fst (stopSession a))) = None
      \/ inputAudioContextRef (refs (fst (stopSession a))) = inputAudioContextRef (refs a))
  /\ (audioContextRef (refs (fst (stopSession a))) = None
      \/ audioContextRef (refs (fst (stopSession a))) = audioContextRef (refs a)).
Proof.
  stop_cases a; repeat split; auto; intros;
    repeat (first [ apply insert_false_closed
                  | apply insert_elsewhere; [congruence|] ]); auto.
Qed.

(** [stopSession] and the streams. *)
Lemma stopSession_streams a m :
  (streams (env a) !! m = Some false ->
   streams (env (fst (stopSession a))) !! m = Some false)
  /\ (streams (env a) !! m = Some true -> mediaStreamRef (refs a) <> Some m ->
      streams (env (fst (stopSession a))) !! m = Some true)
  /\ (mediaStreamRef (refs (fst (stopSession a))) = None).
Proof.
  stop_cases a; repeat split; auto; intros;
    repeat (first [ apply insert_false_closed
                  | apply insert_elsewhere; [congruence|] ]); auto.
Qed.

Lemma step_contexts a e c :
  (contexts (env a) !! c = Some false -> contexts (env (step a e)) !! c = Some false)
  /\ (contexts (env a) !! c = Some true ->
      inputAudioContextRef (refs a) <> Some c -> audioContextRef (refs a) <> Some c ->
      contexts (env (step a e)) !! c = Some true
      /\ inputAudioContextRef (refs (step a e)) <> Some c
      /\ audioContextRef (refs (step a e)) <> Some c).
Proof.
  destruct e as [gum| |sid|sid m|sid|sid|sid|pid inp]; unfold step; cbn [react fst].
  - unfold startSession. split.
    + intros H. destruct gum; cbn; apply lookup_app_l_Some, H.
    + intros H Hi Ha. pose proof (lookup_lt_Some _ _ _ H) as Hlt.
      destruct gum; cbn; (split; [apply lookup_app_l_Some, H|]);
        split; intros [= Heq]; lia.
  - destruct (stopSession_contexts a c) as (H1 & H2 & [Hi|Hi] & [Ha|Ha]);
      (split; [exact H1|]); intros H Hin Hau; (split; [apply H2; assumption|]);
      rewrite Hi, Ha; split; congruence.
  - unfold onopen. destruct (sessions (env a) !! sid); cbn; auto.
  - unfold onmessage, handleAudio. destruct (sessions (env a) !! sid); [|auto].
    destruct (inputTranscription m), (turnComplete m), (audioData m) as [[|x d]|];
      cbn; auto;
      match goal with |- context [rbind ?x ?k] => destruct (rbind x k) end; cbn; auto.
  - unfold onclose. destruct (sessions (env a) !! sid); cbn; auto.
  - unfold onerror. destruct (sessions (env a) !! sid); cbn; auto.
  - cbn. auto.
  - unfold onaudioprocess. destruct (delivers pid a) as [prc|]; [|auto].
    destruct (createBlob inp); cbn; auto.
Qed.

Lemma step_streams a e m :
  (streams (env a) !! m = Some false -> streams (env (step a e)) !! m = Some false)
  /\ (streams (env a) !! m = Some true -> mediaStreamRef (refs a) <> Some m ->
      streams (env (step a e)) !! m = Some true
      /\ mediaStreamRef (refs (step a e)) <> Some m).
Proof.
  destruct e as [gum| |sid|sid e'|sid|sid|sid|pid inp]; unfold step; cbn [react fst].
  - unfold startSession. split.
    + intros H. destruct gum; cbn; [exact H | apply lookup_app_l_Some, H].
    + intros H Hm. pose proof (lookup_lt_Some _ _ _ H) as Hlt.
      destruct gum; cbn; [auto|]. split; [apply lookup_app_l_Some, H|].
      intros [= Heq]; lia.
  - destruct (stopSession_streams a m) as (H1 & H2 & Hm).
    split; [exact H1|]. intros H Hne. split; [apply H2; assumption|].
    rewrite Hm. discriminate.
  - unfold onopen. destruct (sessions (env a) !! sid); cbn; auto.
  - unfold onmessage, handleAudio. destruct (sessions (env a) !! sid); [|auto].
    destruct (inputTranscription e'), (turnComplete e'), (audioData e') as [[|x d]|];
      cbn; auto;
      match goal with |- context [rbind ?x ?k] => destruct (rbind x k) end; cbn; auto.
  - unfold onclose. destruct (sessions (env a) !! sid); cbn; auto.
  - unfold onerror. destruct (sessions (env a) !! sid); cbn; auto.
  - cbn. auto.
  - unfold onaudioprocess. destruct (delivers pid a) as [prc|]; [|auto].
    destruct (createBlob inp); cbn; auto.
Qed.

(** X13.  What no ref names is never released.  An open audio context that
    neither context ref names stays open, and a live stream that the stream
    ref does not name stays live, whatever happens afterwards: a second
    [startSession] overwrites the refs, and what the first one acquired can
    no longer be stopped or closed. *)
Theorem unreferenced_resources_stay_live (a : App) (c m : nat) (evs : list Event) :
  contexts (env a) !! c = Some true ->
  inputAudioContextRef (refs a) <> Some c ->
  audioContextRef (refs a) <> Some c ->
  streams (env a) !! m = Some true ->
  mediaStreamRef (refs a) <> Some m ->
  contexts (env (run a evs)) !! c = Some true
  /\ streams (env (run a evs)) !! m = Some true.
Proof.
  revert a. induction evs as [|e evs IH]; intros a Hc Hi Ha Hs Hm; [auto|].
  change (run a (e :: evs)) with (run (step a e) evs).
  destruct (step_contexts a e c) as [_ H1]. destruct (H1 Hc Hi Ha) as (Hc' & Hi' & Ha').
  destruct (step_streams a e m) as [_ H2]. destruct (H2 Hs Hm) as (Hs' & Hm').
  apply IH; assumption.
Qed.

(** The session is started again after a transport error: the contexts and
    the stream of the first start survive every later stop. *)
Lemma unreferenced_resources_stay_live_witness :
  let a := run initial [EStart None; EOpen 0; EError 0; EStart None] in
  let b := run a [EOpen 1; EStop; EStart None; EStop] in
  contexts (env b) !! 0 = Some true /\ streams (env b) !! 0 = Some true.
Proof.
  apply (unreferenced_resources_stay_live
           (run initial [EStart None; EOpen 0; EError 0; EStart None]) 0 0);
    vm_compute; congruence.
Defined.

(** [stopSession] and the processors: each one stays, with its context; a
    disconnected one stays disconnected; the one the refs name, when a source
    is held too, is disconnected. *)
Lemma stopSession_processors a pid prc :
  processors (env a) !! pid = Some prc ->
  exists prc',
    processors (env (fst (stopSession a))) !! pid = Some prc'
    /\ p_ctx prc' = p_ctx prc
    /\ (p_connected prc = false -> p_connected prc' = false)
    /\ (processorRef (refs a) = Some pid -> sourceRef (refs a) <> None ->
        p_connected prc' = false).
Proof.
  stop_cases a; intros Hp;
    rewrite ?list_lookup_alter; repeat case_decide; subst; rewrite ?Hp; cbn;
    eexists; (split; [reflexivity|]); cbn; repeat split; auto; congruence.
Qed.

Lemma step_processor_kept a e pid prc :
  processors (env a) !! pid = Some prc ->
  exists prc',
    processors (env (step a e)) !! pid = Some prc'
    /\ p_ctx prc' = p_ctx prc
    /\ (p_connected prc = false -> p_connected prc' = false).
Proof.
  intros Hp.
  destruct e as [gum| |sid|sid m|sid|sid|sid|pid' inp]; unfold step; cbn [react fst].
  - unfold startSession. destruct gum; cbn; eauto.
  - destruct (stopSession_processors a pid prc Hp) as (prc' & H1 & H2 & H3 & _). eauto.
  - unfold onopen. destruct (sessions (env a) !! sid); [|eauto]. cbn.
    pose proof (lookup_lt_Some _ _ _ Hp) as Hlt.
    rewrite list_lookup_alter_ne by lia. rewrite lookup_app_l by lia. eauto.
  - unfold onmessage, handleAudio. destruct (sessions (env a) !! sid); [|eauto].
    destruct (inputTranscription m), (turnComplete m), (audioData m) as [[|x d]|];
      cbn; eauto;
      match goal with |- context [rbind ?x ?k] => destruct (rbind x k) end; cbn; eauto.
  - unfold onclose. destruct (sessions (env a) !! sid); cbn; eauto.
  - unfold onerror. destruct (sessions (env a) !! sid); cbn; eauto.
  - cbn. eauto.
  - unfold onaudioprocess. destruct (delivers pid' a) as [q|]; [|eauto].
    destruct (createBlob inp); cbn; eauto.
Qed.

(** A processor that is disconnected, or whose context is closed, delivers
    nothing in any later state. *)
Lemma silent_forever evs : forall a pid prc,
  processors (env a) !! pid = Some prc ->
  p_connected prc = false \/ contexts (env a) !! p_ctx prc = Some false ->
  delivers pid (run a evs) = None.
Proof.
  induction evs as [|e evs IH]; intros a pid prc Hp Hq.
  - cbn. unfold delivers. rewrite Hp.
    destruct Hq as [->|Hc]; [reflexivity|]. rewrite Hc.
    rewrite bool_decide_eq_false_2 by discriminate. rewrite andb_false_r. reflexivity.
  - change (run a (e :: evs)) with (run (step a e) evs).
    destruct (step_processor_kept a e pid prc Hp) as (prc' & Hp' & Hctx & Hcon).
    apply (IH _ _ prc' Hp'). destruct Hq as [Hq|Hq]; [left; auto|].
    right. rewrite Hctx. apply step_contexts, Hq.
Qed.

Lemma refsPaired_step a e : refsValid a -> refsPaired a -> refsPaired (step a e).
Proof.
  intros Hv Hp.
  destruct e as [gum| |sid|sid m|sid|sid|sid|pid inp]; unfold step; cbn [react fst].
  - unfold refsPaired, startSession in *. destruct gum; exact Hp.
  - destruct (stopSession_completes a Hv) as [_ (_ & H2 & H3 & _)].
    unfold refsPaired. rewrite H2, H3. exact I.
  - unfold refsPaired, onopen in *. destruct (sessions (env a) !! sid); [exact I|exact Hp].
  - unfold refsPaired, onmessage, handleAudio in *.
    destruct (sessions (env a) !! sid); [|exact Hp].
    destruct (inputTranscription m), (turnComplete m), (audioData m) as [[|x d]|];
      cbn; try exact Hp;
      match goal with |- context [rbind ?x ?k] => destruct (rbind x k) end; exact Hp.
  - unfold refsPaired, onclose in *. destruct (sessions (env a) !! sid); exact Hp.
  - unfold refsPaired, onerror in *. destruct (sessions (env a) !! sid); exact Hp.
  - exact Hp.
  - unfold refsPaired, onaudioprocess in *. destruct (delivers pid a) as [q|]; [|exact Hp].
    destruct (createBlob inp); exact Hp.
Qed.

Lemma refsPaired_run evs : refsPaired (run initial evs).
Proof.
  induction evs as [|e evs IH] using rev_ind; [exact I|].
  rewrite run_snoc. apply refsPaired_step; [|exact IH].
  apply (refsValid_run evs initial refsValid_initial).
Qed.

(** X14.  After [stopSession], the processor that the ref named never
    delivers a frame again, whatever callbacks still arrive: in every
    reachable state the processor ref is set only together with the source
    ref, so the stop disconnects the processor, and nothing connects it
    again. *)
Theorem stopped_processor_stays_silent (evs0 evs : list Event) (pid : nat) :
  let a := run initial evs0 in
  processorRef (refs a) = Some pid ->
  sourceRef (refs a) <> None
  /\ delivers pid (run (fst (stopSession a)) evs) = None.
Proof.
  intros a Hpid.
  pose proof (refsValid_run evs0 initial refsValid_initial) as Hv. fold a in Hv.
  pose proof (refsPaired_run evs0) as Hpair. fold a in Hpair.
  assert (Hsrc : sourceRef (refs a) <> None).
  { unfold refsPaired in Hpair. rewrite Hpid in Hpair.
    destruct (sourceRef (refs a)); [discriminate|contradiction]. }
  split; [exact Hsrc|].
  destruct Hv as (_ & _ & _ & _ & Hlt). rewrite Hpid in Hlt.
  destruct (lookup_lt_is_Some_2 _ _ Hlt) as [prc Hp].
  destruct (stopSession_processors a pid prc Hp) as (prc' & Hp' & _ & _ & Hoff).
  apply (silent_forever evs _ pid prc' Hp'). left. apply Hoff; assumption.
Qed.

Lemma stopped_processor_stays_silent_witness :
  let a := run initial [EStart None; EOpen 0; EFulfil 0; EAudio 0 [Num (1 # 2)]] in
  delivers 0 a = Some (mkProcessor 0 0 true)
  /\ delivers 0 (run (fst (stopSession a)) [EOpen 0; EFulfil 0; EStart None]) = None.
Proof.
  intros a. split; [reflexivity|].
  apply (stopped_processor_stays_silent
           [EStart None; EOpen 0; EFulfil 0; EAudio 0 [Num (1 # 2)]]).
  reflexivity.
Defined.

Lemma stopSession_processors_length a :
  length (processors (env (fst (stopSession a)))) = length (processors (env a)).
Proof. stop_cases a; rewrite ?length_alter; reflexivity. Qed.

Lemma onopen_effect a sid ses :
  sessions (env a) !! sid = Some ses ->
  isRecording (ui (onopen sid a)) = true
  /\ processorRef (refs (onopen sid a)) = Some (length (processors (env a)))
  /\ processors (env (onopen sid a)) !! length (processors (env a))
     = Some (mkProcessor sid (s_inputCtx ses) true)
  /\ contexts (env (onopen sid a)) = contexts (env a)
  /\ streams (env (onopen sid a)) = streams (env a).
Proof.
  intros Hs. unfold onopen. rewrite Hs. cbn.
  repeat split. rewrite list_lookup_alter_eq, lookup_app_r, Nat.sub_diag by lia.
  reflexivity.
Qed.

Lemma startSession_granted a :
  let a' := startSession None a in
  sessions (env a')
  = sessions (env a)
    ++ [mkSession (length (contexts (env a))) (S (length (contexts (env a))))
          (length (streams (env a))) false [] []]
  /\ processors (env a') = processors (env a)
  /\ inputAudioContextRef (refs a') = Some (length (contexts (env a)))
  /\ mediaStreamRef (refs a') = Some (length (streams (env a))).
Proof. repeat split. Qed.

Lemma stream_stopped_forever evs : forall a m,
  streams (env a) !! m = Some false -> streams (env (run a evs)) !! m = Some false.
Proof.
  induction evs as [|e evs IH]; intros a m H; [exact H|].
  change (run a (e :: evs)) with (run (step a e) evs).
  apply IH, step_streams, H.
Qed.

(** X15.  A stop while the session is still connecting does not cancel the
    connection.  When the open callback of that session arrives after the
    stop, [isRecording] becomes true and a processor is made and stored, but
    on the context that the stop has closed and for the stream whose tracks it
    has stopped: the processor never delivers a frame and the stream stays
    stopped, whatever happens later. *)
Theorem open_after_stop (evs0 evs : list Event) :
  let a := run initial evs0 in
  let sid := length (sessions (env a)) in
  let pid := length (processors (env a)) in
  let b := run a [EStart None; EStop; EOpen sid] in
  isRecording (ui b) = true
  /\ processorRef (refs b) = Some pid
  /\ delivers pid (run b evs) = None
  /\ streams (env (run b evs)) !! length (streams (env a)) = Some false.
Proof.
  intros a sid pid b.
  pose proof (refsValid_run evs0 initial refsValid_initial) as Hv. fold a in Hv.
  set (a1 := step a (EStart None)).
  set (a2 := step a1 EStop).
  assert (Hb : b = onopen sid a2) by reflexivity.
  destruct (startSession_granted a) as (Hses & Hprocs & Hin & Hms).
  change (startSession None a) with a1 in Hses, Hprocs, Hin, Hms.
  assert (Hv1 : refsValid a1) by apply refsValid_step, Hv.
  pose proof (stopSession_releases a1 Hv1) as (Hrs & _ & Hrc & _).
  change (fst (stopSession a1)) with a2 in Hrs, Hrc.
  rewrite Hms in Hrs. rewrite Hin in Hrc.
  destruct (stopSession_frame a1) as (_ & Hss & _).
  change (fst (stopSession a1)) with a2 in Hss.
  assert (Hlook : sessions (env a2) !! sid
                  = Some (mkSession (length (contexts (env a)))
                            (S (length (contexts (env a))))
                            (length (streams (env a))) false [] [])).
  { rewrite Hss, Hses. unfold sid.
    rewrite lookup_app_r, Nat.sub_diag by lia. reflexivity. }
  assert (Hlen : length (processors (env a2)) = pid).
  { unfold a2, step. cbn [react fst]. rewrite stopSession_processors_length, Hprocs.
    reflexivity. }
  destruct (onopen_effect a2 sid _ Hlook) as (Hrec & Hpr & Hp & Hctx & Hstr).
  rewrite <- Hb in Hrec, Hpr, Hp, Hctx, Hstr. rewrite Hlen in Hpr, Hp.
  split; [exact Hrec|]. split; [exact Hpr|]. split.
  - apply (silent_forever evs b pid _ Hp). right. cbn [p_ctx]. rewrite Hctx. exact Hrc.
  - apply stream_stopped_forever. rewrite Hstr. exact Hrs.
Qed.

(** X16.  A start that fails at the microphone has already made the two
    audio contexts and stored them: it shows the message of the rejection (or
    "Failed to start session" when that is empty), creates no session and
    leaves [isRecording] false; the two contexts stay open until the next
    [stopSession], which closes both and clears the refs. *)
Theorem failed_start_then_stop (evs0 : list Event) (msg : jsstring) :
  let a := run initial evs0 in
  let c := length (contexts (env a)) in
  let a1 := step a (EStart (Some msg)) in
  let a2 := step a1 EStop in
  error (ui a1) = Some (match msg with [] => lit "Failed to start session" | _ => msg end)
  /\ isRecording (ui a1) = false
  /\ sessions (env a1) = sessions (env a)
  /\ streams (env a1) = streams (env a)
  /\ contexts (env a1) = contexts (env a) ++ [true; true]
  /\ snd (stopSession a1) = None
  /\ contexts (env a2) !! c = Some false
  /\ contexts (env a2) !! S c = Some false
  /\ localRefsNull a2.
Proof.
  intros a c a1 a2.
  pose proof (refsValid_run evs0 initial refsValid_initial) as Hv. fold a in Hv.
  assert (Hv1 : refsValid a1) by apply refsValid_step, Hv.
  destruct (stopSession_completes a1 Hv1) as [Hdone Hnull].
  pose proof (stopSession_releases a1 Hv1) as (_ & _ & Hin & Hout).
  repeat split; try exact Hdone; try apply Hnull; try exact Hin; exact Hout.
Qed.

Lemma stream_unreferenced_run evs : forall a m,
  streams (env a) !! m = Some true -> mediaStreamRef (refs a) <> Some m ->
  streams (env (run a evs)) !! m = Some true.
Proof.
  induction evs as [|e evs IH]; intros a m Hs Hm; [exact Hs|].
  change (run a (e :: evs)) with (run (step a e) evs).
  destruct (step_streams a e m) as [_ H]. destruct (H Hs Hm) as [Hs' Hm'].
  apply IH; assumption.
Qed.

(** X17.  After a transport error the button starts, it does not stop: with
    the microphone granted again, the click stores a new stream in the ref,
    and the stream of the failed session, still live, stays live whatever
    happens later. *)
Theorem click_after_error_keeps_microphone
    (evs0 evs : list Event) (sid m : nat) :
  let a := run initial evs0 in
  let b := fst (clickButton None (step a (EError sid))) in
  is_Some (sessions (env a) !! sid) ->
  mediaStreamRef (refs a) = Some m ->
  streams (env a) !! m = Some true ->
  clickButton None (step a (EError sid)) = (startSession None (onerror sid a), None)
  /\ mediaStreamRef (refs b) = Some (length (streams (env a)))
  /\ streams (env (run b evs)) !! m = Some true.
Proof.
  intros a b [ses Hs] Hm Hlive.
  assert (Hclick : clickButton None (step a (EError sid))
                   = (startSession None (onerror sid a), None)).
  { unfold clickButton, step. cbn [react fst]. unfold onerror. rewrite Hs. reflexivity. }
  split; [exact Hclick|].
  unfold b. rewrite Hclick. cbn [fst].
  pose proof (lookup_lt_Some _ _ _ Hlive) as Hlt.
  assert (He : streams (env (onerror sid a)) = streams (env a)
               /\ refs (onerror sid a) = refs a).
  { unfold onerror. rewrite Hs. split; reflexivity. }
  destruct He as [He1 He2].
  destruct (startSession_granted (onerror sid a)) as (_ & _ & _ & Hms).
  cbv zeta in Hms. rewrite He1 in Hms. split; [exact Hms|].
  apply stream_unreferenced_run.
  - unfold startSession. cbn. rewrite He1. apply lookup_app_l_Some, Hlive.
  - rewrite Hms. intros [= Heq]. lia.
Qed.

Lemma click_after_error_keeps_microphone_witness :
  let a := run initial [EStart None; EOpen 0; EFulfil 0] in
  let b := fst (clickButton None (step a (EError 0))) in
  streams (env (run b [EOpen 1; EStop; EStart None; EOpen 2; EStop])) !! 0 = Some true.
Proof.
  intros a b.
  apply (click_after_error_keeps_microphone [EStart None; EOpen 0; EFulfil 0]).
  - vm_compute. eauto.
  - reflexivity.
  - reflexivity.
Defined.

End ResourcesMore.
